(** * UrbanSound8K metadata to JAMS: a shallow embedding of
      [parsers/urbansound8k_parser.py]

    The script reads a table, and for every row builds one JAMS document
    ([create_snippet_jam]) and saves it under a name derived from the row's
    [slice_file_name] ([process_metadata]).

    Rows are what [DataFrame.iterrows] yields for a table that has at least one
    text column: a mapping from column name to a Python scalar ([str], [int],
    [float] or [bool]; an empty cell is the float NaN).  Python floats are
    IEEE 754 binary64 numbers, here the kernel's primitive floats; Python
    integers are unbounded, here [Z]. *)

From Stdlib Require Import ZArith String Ascii Floats Lia.
From stdpp Require Import gmap strings.
From Equations Require Import Equations.

Local Open Scope Z_scope.
Local Open Scope string_scope.

(** ** Python values and exceptions *)

Inductive pyval :=
| PStr (s : string)
| PInt (n : Z)
| PFloat (x : float)
| PBool (b : bool).

Inductive exn :=
| KeyError (key : string)
| TypeError
| AttributeError (attr : string)
| OverflowError
| ReadError (path : string)
| WriteError (path : string).

(** A computation that returns or raises. *)
Inductive result (A : Type) :=
| Ok (a : A)
| Raise (e : exn).
Arguments Ok {A} a.
Arguments Raise {A} e.

#[global] Instance result_ret : MRet result := @Ok.
#[global] Instance result_bind : MBind result := λ A B k r,
  match r with
  | Ok a => k a
  | Raise e => Raise e
  end.

(** A row of the table: [row[k]] raises [KeyError] on a missing column. *)
Abbreviation Row := (gmap string pyval).

Definition getitem (row : Row) (k : string) : result pyval :=
  match row !! k with
  | Some v => Ok v
  | None => Raise (KeyError k)
  end.

(** *** Arithmetic: the [-] of [row['end'] - row['start']] *)

(** [float(n)] for an integer: round to nearest even, [OverflowError] when the
    rounded value does not fit a double. *)
Definition float_of_int (n : Z) : result float :=
  match binary_normalize prec emax n 0 false with
  | S754_infinity _ => Raise OverflowError
  | sf => Ok (SF2Prim sf)
  end.

(** The numeric reading of an operand: [bool] is a subclass of [int]. *)
Inductive num :=
| NInt (n : Z)
| NFloat (x : float).

Definition as_num (v : pyval) : option num :=
  match v with
  | PInt n => Some (NInt n)
  | PBool b => Some (NInt (Z.b2z b))
  | PFloat x => Some (NFloat x)
  | PStr _ => None
  end.

(** [a - b]: integer subtraction on two integers; as soon as one operand is
    a float the other is converted and the doubles are subtracted; a [str]
    operand raises [TypeError]. *)
Definition py_sub (a b : pyval) : result pyval :=
  match as_num a, as_num b with
  | Some (NInt m), Some (NInt n) => Ok (PInt (m - n))
  | Some (NFloat x), Some (NFloat y) => Ok (PFloat (x - y))
  | Some (NInt m), Some (NFloat y) => x ← float_of_int m; Ok (PFloat (x - y))
  | Some (NFloat x), Some (NInt n) => y ← float_of_int n; Ok (PFloat (x - y))
  | _, _ => Raise TypeError
  end.

(** *** Strings: [str.replace] and [os.path.join] *)

(** [s[n:]] *)
Fixpoint str_drop (n : nat) (s : string) : string :=
  match n, s with
  | O, _ => s
  | S _, EmptyString => EmptyString
  | S n', String _ s' => str_drop n' s'
  end.

(** [s.replace(old, new)] for a non-empty [old]: scan from the left; at an
    occurrence of [old] emit [new] and continue after the occurrence. *)
Equations? replace_from (old new s : string) : string by wf (String.length s) lt :=
  replace_from old new EmptyString := EmptyString;
  replace_from old new (String c s') with String.prefix old (String c s') => {
    | true := new +:+ replace_from old new (str_drop (String.length old - 1) s');
    | false := String c (replace_from old new s') }.
Proof.
  all: simpl; try lia.
  enough (Hdrop : forall n s, (String.length (str_drop n s) <= String.length s)%nat)
    by (specialize (Hdrop (String.length old - 1)%nat s'); lia).
  clear. intros n; induction n as [|n IH]; intros [|c s]; simpl; try lia.
  specialize (IH s); lia.
Qed.

(** With an empty [old], Python inserts [new] before every character and at
    the end. *)
Fixpoint insert_around (new s : string) : string :=
  match s with
  | EmptyString => new
  | String c s' => new +:+ String c (insert_around new s')
  end.

Definition str_replace (old new s : string) : string :=
  match old with
  | EmptyString => insert_around new s
  | String _ _ => replace_from old new s
  end.

(** [v.replace(old, new)] on a cell: only [str] has the method. *)
Definition replace_method (v : pyval) (old new : string) : result string :=
  match v with
  | PStr s => Ok (str_replace old new s)
  | _ => Raise (AttributeError "replace")
  end.

(** [s.endswith(suffix)] *)
Definition endswith (suffix s : string) : bool :=
  String.eqb (str_drop (String.length s - String.length suffix) s) suffix.

(** [os.path.join(a, b)] (posixpath): an absolute [b] discards [a]. *)
Definition os_path_join (a b : string) : string :=
  if String.prefix "/" b then b
  else if String.eqb a "" || endswith "/" a then a +:+ b
  else a +:+ "/" +:+ b.


(** ** The JAMS objects the script builds

    The [jams] library is a dependency of the script and not part of the
    repository.  Its objects are taken as the Annotation Document of the
    specification describes them: containers that hold what the script puts
    into them.  Each record lists the attributes the script reads or writes;
    the library's schema validation is outside this model. *)

Module Observation.
(** Modelled from the spec: a time-labeled event of the [jams] library,
    [{time, duration, value, confidence}]. *)
Record t := mk {
  time : pyval;
  duration : pyval;
  value : pyval;
  confidence : pyval }.
End Observation.

Module Curator.
(** Modelled from the spec: [jams.Curator(name=, email=)]. *)
Record t := mk {
  name : string;
  email : string }.
End Curator.

Module AnnotationMetadata.
(** Modelled from the spec: the provenance fields of an annotation,
    [jams.AnnotationMetadata]. *)
Record t := mk {
  curator : Curator.t;
  version : string;
  corpus : string;
  annotator : gmap string (list (gmap string string));
  annotation_tools : string;
  annotation_rules : string;
  validation : string;
  data_source : string }.

(** Modelled from the spec: the metadata of a new annotation, nothing filled
    in yet. *)
Definition new : t :=
  mk (Curator.mk "" "") "" "" ∅ "" "" "" "".

(** Attribute assignments [meta.field = v]. *)

Definition set_curator (v : Curator.t) (m : t) : t :=
  mk v (version m) (corpus m) (annotator m) (annotation_tools m)
     (annotation_rules m) (validation m) (data_source m).
Definition set_version (v : string) (m : t) : t :=
  mk (curator m) v (corpus m) (annotator m) (annotation_tools m)
     (annotation_rules m) (validation m) (data_source m).
Definition set_corpus (v : string) (m : t) : t :=
  mk (curator m) (version m) v (annotator m) (annotation_tools m)
     (annotation_rules m) (validation m) (data_source m).
Definition set_annotator (v : gmap string (list (gmap string string))) (m : t) : t :=
  mk (curator m) (version m) (corpus m) v (annotation_tools m)
     (annotation_rules m) (validation m) (data_source m).
Definition set_annotation_tools (v : string) (m : t) : t :=
  mk (curator m) (version m) (corpus m) (annotator m) v
     (annotation_rules m) (validation m) (data_source m).
Definition set_annotation_rules (v : string) (m : t) : t :=
  mk (curator m) (version m) (corpus m) (annotator m) (annotation_tools m)
     v (validation m) (data_source m).
Definition set_validation (v : string) (m : t) : t :=
  mk (curator m) (version m) (corpus m) (annotator m) (annotation_tools m)
     (annotation_rules m) v (data_source m).
Definition set_data_source (v : string) (m : t) : t :=
  mk (curator m) (version m) (corpus m) (annotator m) (annotation_tools m)
     (annotation_rules m) (validation m) v.
End AnnotationMetadata.

(** Modelled from the spec: [Sandbox.update] of the [jams] library, called
    with keyword arguments [kw].  The sandbox is a mapping from string key to
    value; every keyword is copied into it as it is, replacing an entry of
    the same name. *)
Definition Sandbox_update (kw sandbox : gmap string pyval) : gmap string pyval :=
  kw ∪ sandbox.

Module Annotation.
(** Modelled from the spec: the annotation block, [jams.Annotation]. *)
Record t := mk {
  namespace : string;
  data : list Observation.t;
  annotation_metadata : AnnotationMetadata.t;
  sandbox : gmap string pyval;
  duration : option pyval }.

(** Modelled from the spec: [jams.Annotation(namespace)], an annotation of
    that namespace with no event, an empty sandbox and no duration. *)
Definition new (ns : string) : t :=
  mk ns [] AnnotationMetadata.new ∅ None.

(** Modelled from the spec: [ann.append(time=, duration=, value=,
    confidence=)] adds one event holding the four values. *)
Definition append (time duration value confidence : pyval) (ann : t) : t :=
  mk (namespace ann)
     (data ann ++ [Observation.mk time duration value confidence])
     (annotation_metadata ann) (sandbox ann) (Annotation.duration ann).

(** Attribute assignments [ann.field = v]. *)
Definition set_duration (v : pyval) (ann : t) : t :=
  mk (namespace ann) (data ann) (annotation_metadata ann) (sandbox ann) (Some v).
Definition set_annotation_metadata (v : AnnotationMetadata.t) (ann : t) : t :=
  mk (namespace ann) (data ann) v (sandbox ann) (duration ann).
Definition set_sandbox (v : gmap string pyval) (ann : t) : t :=
  mk (namespace ann) (data ann) (annotation_metadata ann) v (duration ann).
End Annotation.

Module FileMetadata.
(** Modelled from the spec: the file metadata block, [jams.FileMetadata]. *)
Record t := mk {
  title : pyval;
  artist : string;
  release : string;
  duration : option pyval }.

(** Modelled from the spec: the file metadata of a new document, nothing
    filled in yet. *)
Definition new : t := mk (PStr "") "" "" None.

(** Attribute assignments [jam.file_metadata.field = v]. *)

Definition set_title (v : pyval) (m : t) : t :=
  mk v (artist m) (release m) (duration m).
Definition set_artist (v : string) (m : t) : t :=
  mk (title m) v (release m) (duration m).
Definition set_release (v : string) (m : t) : t :=
  mk (title m) (artist m) v (duration m).
Definition set_duration (v : pyval) (m : t) : t :=
  mk (title m) (artist m) (release m) (Some v).
End FileMetadata.

Module JAMS.
(** Modelled from the spec: the Annotation Document, [jams.JAMS]. *)
Record t := mk {
  annotations : list Annotation.t;
  file_metadata : FileMetadata.t }.

(** Modelled from the spec: [jams.JAMS()], a document without annotations. *)
Definition new : t := mk [] FileMetadata.new.

Definition set_file_metadata (v : FileMetadata.t) (jam : t) : t :=
  mk (annotations jam) v.
(** Modelled from the spec: [jam.annotations.append(ann)]. *)
Definition annotations_append (ann : Annotation.t) (jam : t) : t :=
  mk (annotations jam ++ [ann]) (file_metadata jam).
End JAMS.

(** ** The script *)

(** [fill_file_metadata(jam, row)] *)
Definition fill_file_metadata (jam : JAMS.t) (row : Row) : result JAMS.t :=
  title ← getitem row "slice_file_name";
  let jam := JAMS.set_file_metadata
               (FileMetadata.set_title title (JAMS.file_metadata jam)) jam in
  let jam := JAMS.set_file_metadata
               (FileMetadata.set_release "1.0" (JAMS.file_metadata jam)) jam in
  e ← getitem row "end";
  s ← getitem row "start";
  d ← py_sub e s;
  let jam := JAMS.set_file_metadata
               (FileMetadata.set_duration d (JAMS.file_metadata jam)) jam in
  Ok (JAMS.set_file_metadata
        (FileMetadata.set_artist "UrbanSound8K" (JAMS.file_metadata jam)) jam).

(** The dictionary [annotators] of [fill_annotation_metadata]. *)
Definition annotators : gmap string (list (gmap string string)) :=
  {[ "annotators" :=
       [ {[ "name" := "Justin Salamon"; "email" := "justin.salamon@nyu.edu" ]};
         {[ "name" := "Christopher Jacoby";
            "email" := "christopher.jacoby@gmail.com" ]} ] ]}.

(** The citation assigned to [annotation_rules]; its title is in double
    quotes (character 34). *)
Definition annotation_rules_text : string :=
  "See: J. Salamon, C. Jacoby and J. P. Bello, " +:+ String (ascii_of_nat 34)
    "A Dataset and Taxonomy " +:+
  "for Urban Sound Research" +:+ String (ascii_of_nat 34)
    ", in Proc. 22nd ACM International Conference " +:+
  "on Multimedia, Orlando, USA, Nov. 2014.".

(** [fill_annotation_metadata(ann, row)] *)
Definition fill_annotation_metadata (ann : Annotation.t) (row : Row) : Annotation.t :=
  let meta := Annotation.annotation_metadata ann in
  let meta := AnnotationMetadata.set_annotation_tools "Sonic Visualiser" meta in
  let meta := AnnotationMetadata.set_curator
                (Curator.mk "Justin Salamon" "justin.salamon@nyu.edu") meta in
  let meta := AnnotationMetadata.set_annotator annotators meta in
  let meta := AnnotationMetadata.set_version "1.0" meta in
  let meta := AnnotationMetadata.set_corpus "UrbanSound8K" meta in
  let meta := AnnotationMetadata.set_annotation_rules annotation_rules_text meta in
  let meta := AnnotationMetadata.set_data_source
                "https://serv.cusp.nyu.edu/projects/urbansounddataset/" meta in
  let meta := AnnotationMetadata.set_validation "" meta in
  let ann := Annotation.set_annotation_metadata meta ann in
  Annotation.set_sandbox (Sandbox_update row (Annotation.sandbox ann)) ann.

(** [create_snippet_jam(row)] *)
Definition create_snippet_jam (row : Row) : result JAMS.t :=
  let jam := JAMS.new in
  let ann := Annotation.new "tag_open" in
  e ← getitem row "end";
  s ← getitem row "start";
  d ← py_sub e s;
  cls ← getitem row "class";
  let ann := Annotation.append (PInt 0) d cls (PFloat 1) ann in
  e' ← getitem row "end";
  s' ← getitem row "start";
  d' ← py_sub e' s';
  let ann := Annotation.set_duration d' ann in
  jam ← fill_file_metadata jam row;
  let ann := fill_annotation_metadata ann row in
  Ok (JAMS.annotations_append ann jam).

(** The name of the file a row is saved to:
    [os.path.join(out_dir, row['slice_file_name'].replace(".wav", ".jams"))] *)
Definition out_file (out_dir : string) (row : Row) : result string :=
  name ← getitem row "slice_file_name";
  base ← replace_method name ".wav" ".jams";
  Ok (os_path_join out_dir base).

(** The files on disk: path to saved document.  A raised exception does not
    undo earlier writes, so the store is threaded next to the result. *)
Abbreviation Files := (gmap string JAMS.t).

Section Batch.

(** The Table Loader, [pd.read_csv(path)] followed by [iterrows()] of the
    [pandas] library: the rows in table order, or an error. *)
Variable read_csv : string -> result (list Row).

(** Whether the Document Writer can write [jam] to [path], and the error it
    fails with when it cannot (a missing or read-only directory, a document
    the library refuses). *)
Variable save_error : string -> JAMS.t -> option exn.

(** Modelled from the spec: the Document Writer, [jam.save(path)] of the
    [jams] library.  It creates or overwrites the file at [path], or fails
    and leaves the files as they were. *)
Definition JAMS_save (jam : JAMS.t) (path : string) (fs : Files)
  : Files * result unit :=
  match save_error path jam with
  | Some e => (fs, Raise e)
  | None => (<[path := jam]> fs, Ok tt)
  end.

(** The body of the loop of [process_metadata]. *)
Definition process_row (out_dir : string) (row : Row) (fs : Files)
  : Files * result unit :=
  match create_snippet_jam row with
  | Raise e => (fs, Raise e)
  | Ok jam =>
      match out_file out_dir row with
      | Raise e => (fs, Raise e)
      | Ok path => JAMS_save jam path fs
      end
  end.

(** [for idx, row in df.iterrows(): ...] *)
Fixpoint for_rows (out_dir : string) (rows : list Row) (fs : Files)
  : Files * result unit :=
  match rows with
  | [] => (fs, Ok tt)
  | row :: rest =>
      match process_row out_dir row fs with
      | (fs', Ok _) => for_rows out_dir rest fs'
      | (fs', Raise e) => (fs', Raise e)
      end
  end.

(** [process_metadata(metadata_file, out_dir)] *)
Definition process_metadata (metadata_file out_dir : string) (fs : Files)
  : Files * result unit :=
  match read_csv metadata_file with
  | Raise e => (fs, Raise e)
  | Ok rows => for_rows out_dir rows fs
  end.

End Batch.


(** ** Vocabulary of the specification *)

Definition is_str (v : pyval) : bool :=
  match v with
  | PStr _ => true
  | _ => false
  end.

(** A numeric cell: a float, or an integer as [read_csv] parses them (a column
    of integers is read as [int64] or [uint64]). *)
Definition is_numeric (v : pyval) : bool :=
  match v with
  | PInt n => (- 2 ^ 63 <=? n)%Z && (n <? 2 ^ 64)%Z
  | PFloat _ => true
  | _ => false
  end.

(** An Input Record: the four required columns, with text in
    [slice_file_name] and [class] and numbers in [start] and [end]; further
    columns are free. *)
Definition input_record (row : Row) : bool :=
  match row !! "slice_file_name", row !! "class", row !! "start", row !! "end" with
  | Some name, Some cls, Some s, Some e =>
      is_str name && is_str cls && is_numeric s && is_numeric e
  | _, _, _, _ => false
  end.

(** The order of an integer and a double, compared exactly as Python compares
    an [int] with a [float]; [None] against a NaN. *)
Definition Z_compare_SF (n : Z) (x : spec_float) : option comparison :=
  match x with
  | S754_nan => None
  | S754_zero _ => Some (n ?= 0)%Z
  | S754_infinity s => Some (if s then Gt else Lt)
  | S754_finite s m e =>
      Some (if (0 <=? e)%Z then (n ?= cond_Zopp s (Z.pos m) * 2 ^ e)%Z
            else (n * 2 ^ (- e) ?= cond_Zopp s (Z.pos m))%Z)
  end.

(** [a < b] on numbers; [false] when an operand is not a number. *)
Definition num_lt (a b : pyval) : bool :=
  match as_num a, as_num b with
  | Some (NInt m), Some (NInt n) => (m <? n)%Z
  | Some (NFloat x), Some (NFloat y) => (x <? y)%float
  | Some (NInt m), Some (NFloat y) =>
      match Z_compare_SF m (Prim2SF y) with
      | Some Lt => true
      | _ => false
      end
  | Some (NFloat x), Some (NInt n) =>
      match Z_compare_SF n (Prim2SF x) with
      | Some Gt => true
      | _ => false
      end
  | _, _ => false
  end.

(** Both integers, or both floats: no conversion before the subtraction. *)
Definition same_kind (a b : pyval) : bool :=
  match a, b with
  | PInt _, PInt _ | PFloat _, PFloat _ => true
  | _, _ => false
  end.

(** No integer is rounded on its way into [a - b]: the operands are both
    integers or both floats, or the integer among them is at most [2^53] in
    absolute value (every such integer is a double). *)
Definition no_rounding (a b : pyval) : bool :=
  match as_num a, as_num b with
  | Some (NInt m), Some (NFloat _) => (Z.abs m <=? 2 ^ 53)%Z
  | Some (NFloat _), Some (NInt n) => (Z.abs n <=? 2 ^ 53)%Z
  | _, _ => true
  end.

(** [sub in s]: the text [sub] occurs somewhere in [s]. *)
Fixpoint occurs (sub s : string) : bool :=
  String.prefix sub s ||
  match s with
  | EmptyString => false
  | String _ s' => occurs sub s'
  end.

(** What [create_snippet_jam] returns once the four cells are there and the
    subtraction has given [d]. *)
Definition snippet (row : Row) (name cls d : pyval) : JAMS.t :=
  JAMS.annotations_append
    (fill_annotation_metadata
       (Annotation.set_duration d
          (Annotation.append (PInt 0) d cls (PFloat 1) (Annotation.new "tag_open")))
       row)
    (JAMS.mk [] (FileMetadata.mk name "UrbanSound8K" "1.0" (Some d))).

(** *** Rows used as examples *)

(** The row of the end-to-end example, with two pass-through columns. *)
Definition dog_bark : Row :=
  {[ "slice_file_name" := PStr "100032-3-0-0.wav"; "class" := PStr "dog_bark";
     "start" := PFloat 0; "end" := PFloat 4; "fold" := PInt 5;
     "classID" := PInt 3 ]}.

(** A clip whose end lies before its start. *)
Definition backwards : Row :=
  {[ "slice_file_name" := PStr "17592-5-1-0.wav"; "class" := PStr "engine_idling";
     "start" := PFloat 4; "end" := PFloat 1.5 ]}.

(** An integer [end] before a float [start]. *)
Definition backwards_int_end : Row :=
  {[ "slice_file_name" := PStr "518-4-0-0.wav"; "class" := PStr "drilling";
     "start" := PFloat 4; "end" := PInt 1 ]}.

(** An integer [end] one below a float [start], both beyond [2^53]. *)
Definition beyond_2_53 : Row :=
  {[ "slice_file_name" := PStr "24074-1-0-0.wav"; "class" := PStr "car_horn";
     "start" := PFloat 9007199254740996; "end" := PInt 9007199254740995 ]}.

(** A name in which [.wav] occurs before the extension as well. *)
Definition twice_wav : Row :=
  {[ "slice_file_name" := PStr "siren.wav.wav"; "class" := PStr "siren";
     "start" := PFloat 0; "end" := PFloat 4 ]}.

(** A name without [.wav]. *)
Definition flac_clip : Row :=
  {[ "slice_file_name" := PStr "100263-2-0-117.flac";
     "class" := PStr "children_playing";
     "start" := PFloat 58.5; "end" := PFloat 62.5 ]}.

(** The malformed row of the specification's last example. *)
Definition malformed : Row :=
  {[ "slice_file_name" := PStr "100648-1-0-0.wav"; "class" := PStr "car_horn";
     "start" := PStr "abc"; "end" := PFloat 4 ]}.

Definition three_rows : list Row := [dog_bark; malformed; flac_clip].

(** A loader that yields [three_rows] for every path, and a writer that never
    fails. *)
Definition read_three_rows (path : string) : result (list Row) := Ok three_rows.
Definition always_saves (path : string) (jam : JAMS.t) : option exn := None.

(** The files once [dog_bark] has been saved into an empty directory [out]. *)
Definition after_dog_bark : Files :=
  {[ "out/100032-3-0-0.jams" :=
       snippet dog_bark (PStr "100032-3-0-0.wav") (PStr "dog_bark") (PFloat 4) ]}.

(** *** Further vocabulary and example rows *)

(** [s[0]], when there is one. *)
Definition str_head (s : string) : option ascii :=
  match s with
  | EmptyString => None
  | String c _ => Some c
  end.

(** A row whose [start] cell is empty: [read_csv] yields NaN. *)
Definition empty_start : Row :=
  {[ "slice_file_name" := PStr "102106-3-0-0.wav"; "class" := PStr "dog_bark";
     "start" := PFloat nan; "end" := PFloat 1.5 ]}.

(** A row whose [slice_file_name] cell is empty. *)
Definition empty_name : Row :=
  {[ "slice_file_name" := PFloat nan; "class" := PStr "drilling";
     "start" := PFloat 0; "end" := PFloat 4 ]}.

(** A row whose file name is an absolute path. *)
Definition absolute_name : Row :=
  {[ "slice_file_name" := PStr "/data/fold5/100032-3-0-0.wav";
     "class" := PStr "dog_bark"; "start" := PFloat 0; "end" := PFloat 4 ]}.

(** A row named like the output of [dog_bark]. *)
Definition jams_named : Row :=
  {[ "slice_file_name" := PStr "100032-3-0-0.jams"; "class" := PStr "siren";
     "start" := PInt 2; "end" := PInt 6 ]}.

(** A well-formed table in which the first and the last row share their
    output file. *)
Definition colliding_rows : list Row := [dog_bark; flac_clip; jams_named].
Definition read_colliding_rows (path : string) : result (list Row) :=
  Ok colliding_rows.

(** A float [start] before an integer [end]. *)
Definition float_start : Row :=
  {[ "slice_file_name" := PStr "7061-6-0-0.wav"; "class" := PStr "gun_shot";
     "start" := PFloat 0.5; "end" := PInt 3 ]}.

(** A table of two clips with the columns of [dog_bark]. *)
Definition street_music : Row :=
  {[ "slice_file_name" := PStr "100652-3-0-1.wav"; "class" := PStr "street_music";
     "start" := PFloat 1.5; "end" := PFloat 5.5; "fold" := PInt 2;
     "classID" := PInt 9 ]}.

Definition two_clips : list Row := [dog_bark; street_music].
Definition read_two_clips (path : string) : result (list Row) := Ok two_clips.

(** A writer that accepts a file name ending in [.jams] and refuses every
    other one. *)
Definition saves_jams_names (path : string) (jam : JAMS.t) : option exn :=
  if endswith ".jams" path then None else Some (WriteError path).

(** *** Integers held by doubles *)

(** A double that holds the integer [V]: zero, or a valid finite number
    whose mantissa and exponent give [V]. *)
Definition holds_int (sf : spec_float) (V : Z) : Prop :=
  match sf with
  | S754_zero s => s = false ∧ V = 0
  | S754_finite s m e =>
      bounded prec emax m e = true ∧
      V * 2 ^ Z.max 0 (- e) = cond_Zopp s (Z.pos m) * 2 ^ Z.max 0 e
  | _ => False
  end.

(** [V] is [p] itself, or one of the two neighbours of [p] on the grid of
    the doubles around it, of step [2^k]. *)
Definition grid_neighbour (p V : Z) : Prop :=
  V = p ∨
  ∃ k, 0 < k ∧ 2 ^ (52 + k) <= p < 2 ^ (53 + k) ∧
       (V = p / 2 ^ k * 2 ^ k ∨ V = (p / 2 ^ k + 1) * 2 ^ k).

(** ** Binary64 arithmetic

    The facts about doubles the script depends on: converting a 64-bit
    integer never overflows, and a subtraction keeps the order of its
    operands.  They are proved on the specification of the primitive floats
    ([SpecFloat]), mantissa and exponent. *)

Section Binary64.

Local Open Scope Z_scope.

Lemma digits2_pos_bounds (p : positive) :
  2 ^ (Z.pos (digits2_pos p) - 1) <= Z.pos p < 2 ^ Z.pos (digits2_pos p).
Proof.
  induction p as [p IH|p IH|]; simpl digits2_pos.
  - rewrite Pos2Z.inj_succ, Z.pow_succ_r by lia.
    replace (Z.succ (Z.pos (digits2_pos p)) - 1) with (Z.succ (Z.pos (digits2_pos p) - 1)) by lia.
    rewrite Z.pow_succ_r by lia. lia.
  - rewrite Pos2Z.inj_succ, Z.pow_succ_r by lia.
    replace (Z.succ (Z.pos (digits2_pos p)) - 1) with (Z.succ (Z.pos (digits2_pos p) - 1)) by lia.
    rewrite Z.pow_succ_r by lia. lia.
  - simpl. lia.
Qed.

Lemma Zdigits2_bounds m : 0 < m -> 0 < Zdigits2 m ∧ 2 ^ (Zdigits2 m - 1) <= m < 2 ^ Zdigits2 m.
Proof.
  destruct m as [|p|p]; try lia. intros _. simpl. split; [lia|apply digits2_pos_bounds].
Qed.

Lemma Zdigits2_le m k : 0 < m -> m < 2 ^ k -> Zdigits2 m <= k.
Proof.
  intros Hm Hk. destruct (Zdigits2_bounds m Hm) as (Hd & Hlo & _).
  destruct (Z.le_gt_cases (Zdigits2 m) k) as [|Hgt]; [done|].
  assert (0 <= k) by (destruct (Z.le_gt_cases 0 k); [done|]; rewrite Z.pow_neg_r in Hk; lia).
  assert (2 ^ k <= 2 ^ (Zdigits2 m - 1)) by (apply Z.pow_le_mono_r; lia).
  lia.
Qed.

Lemma shr_1_m r : 0 <= shr_m r -> shr_m (shr_1 r) = shr_m r / 2.
Proof.
  destruct r as [m rb sb]; simpl. intros Hm.
  destruct m as [|[p|p|]|p]; cbn [shr_1 shr_m]; try lia; try reflexivity.
  - apply Z.div_unique with 1; lia.
  - apply Z.div_unique with 0; lia.
Qed.

Lemma iter_shr_1_m p : forall r, 0 <= shr_m r ->
  shr_m (SpecFloat.iter_pos shr_1 p r) = shr_m r / 2 ^ Z.pos p.
Proof.
  assert (Hnn : forall r, 0 <= shr_m r -> 0 <= shr_m (shr_1 r)).
  { intros r Hr. rewrite shr_1_m by done. apply Z.div_pos; lia. }
  induction p as [p IH|p IH|]; intros r Hr; simpl SpecFloat.iter_pos.
  - assert (0 <= shr_m (SpecFloat.iter_pos shr_1 p (shr_1 r))).
    { rewrite IH by auto. apply Z.div_pos; [auto|lia]. }
    rewrite IH, IH, shr_1_m by auto.
    rewrite !Z.div_div by lia. f_equal.
    replace (Z.pos p~1) with (1 + Z.pos p + Z.pos p) by lia.
    rewrite !Z.pow_add_r by lia. lia.
  - assert (0 <= shr_m (SpecFloat.iter_pos shr_1 p r)).
    { rewrite IH by auto. apply Z.div_pos; [auto|lia]. }
    rewrite IH, IH by auto.
    rewrite !Z.div_div by lia. f_equal.
    replace (Z.pos p~0) with (Z.pos p + Z.pos p) by lia.
    rewrite !Z.pow_add_r by lia. lia.
  - rewrite shr_1_m by done. reflexivity.
Qed.

Lemma shr_record_of_loc_m m l : shr_m (shr_record_of_loc m l) = m.
Proof. destruct l as [|[]]; reflexivity. Qed.

(** One rounding shift of a positive mantissa whose exponent is in range. *)
Lemma shr_fexp_pos m e l mrs e' :
  0 < m -> SpecFloat.emin prec emax <= e ->
  shr_fexp prec emax m e l = (mrs, e') ->
  0 < shr_m mrs ∧ e' = Z.max e (Zdigits2 m + e - prec) ∧
  Zdigits2 (shr_m mrs) + e' <= Zdigits2 m + e ∧ Zdigits2 (shr_m mrs) <= prec.
Proof.
  intros Hm He. destruct (Zdigits2_bounds m Hm) as (Hd & Hlo & Hhi).
  unfold shr_fexp, shr, fexp, SpecFloat.emin, prec, emax in *.
  destruct (Z.max (Zdigits2 m + e - 53) (3 - 1024 - 53) - e) as [|p|p] eqn:Hn;
    intros [= <- <-]; rewrite ?iter_shr_1_m, shr_record_of_loc_m
      by (rewrite shr_record_of_loc_m; lia).
  1,3: repeat split; try lia.
  - assert (Hp : Z.pos p = Zdigits2 m - 53) by lia.
    assert (H2 : 0 < 2 ^ Z.pos p) by (apply Z.pow_pos_nonneg; lia).
    assert (Hq : 2 ^ (53 - 1) <= m / 2 ^ Z.pos p < 2 ^ 53).
    { split.
      - apply Z.div_le_lower_bound; [done|].
        rewrite <- Z.pow_add_r by lia. replace (Z.pos p + (53 - 1)) with (Zdigits2 m - 1) by lia. lia.
      - apply Z.div_lt_upper_bound; [done|].
        rewrite <- Z.pow_add_r by lia. replace (Z.pos p + 53) with (Zdigits2 m) by lia. lia. }
    assert (0 < m / 2 ^ Z.pos p) by (simpl in Hq; lia).
    assert (Zdigits2 (m / 2 ^ Z.pos p) <= 53) by (apply Zdigits2_le; lia).
    repeat split; lia.
Qed.

Lemma Zdigits2_unique m k : 0 < m -> 2 ^ (k - 1) <= m < 2 ^ k -> Zdigits2 m = k.
Proof.
  intros Hm [Hlo Hhi]. destruct (Zdigits2_bounds m Hm) as (Hd & Hlo' & Hhi').
  assert (Zdigits2 m <= k) by (by apply Zdigits2_le).
  assert (0 <= k) by lia.
  destruct (Z.le_gt_cases k (Zdigits2 m)) as [|Hgt]; [lia|].
  assert (2 ^ Zdigits2 m <= 2 ^ (k - 1)) by (apply Z.pow_le_mono_r; lia).
  lia.
Qed.

Lemma round_nearest_even_bounds m l : m <= round_nearest_even m l <= m + 1.
Proof.
  unfold round_nearest_even. destruct l as [|[]]; try lia.
  destruct (IntDef.Z.even m); lia.
Qed.

(** Rounding a positive mantissa at an exponent in range keeps the sign: the
    result is a non-zero finite number or an infinity of that sign, and it is
    finite when the exponent stays clear of the largest one. *)
Lemma binary_round_aux_pos sx m e l :
  0 < m -> SpecFloat.emin prec emax <= e ->
  (∃ m' e', binary_round_aux prec emax sx m e l = S754_finite sx m' e') ∨
  (binary_round_aux prec emax sx m e l = S754_infinity sx ∧
   emax - prec <= Z.max e (Zdigits2 m + e - prec)).
Proof.
  intros Hm He. unfold binary_round_aux.
  destruct (shr_fexp prec emax m e l) as [mrs' e'] eqn:H1.
  destruct (shr_fexp_pos _ _ _ _ _ Hm He H1) as (Hm' & He' & _ & Hd').
  pose proof (round_nearest_even_bounds (shr_m mrs') (loc_of_shr_record mrs')) as Hr.
  set (m1 := round_nearest_even (shr_m mrs') (loc_of_shr_record mrs')) in *.
  destruct (shr_fexp prec emax m1 e' loc_Exact) as [mrs'' e''] eqn:H2.
  assert (Hm1 : 0 < m1) by lia.
  assert (He1 : SpecFloat.emin prec emax <= e') by lia.
  destruct (shr_fexp_pos _ _ _ _ _ Hm1 He1 H2) as (Hm'' & He'' & _ & _).
  assert (Zdigits2 m1 <= prec + 1).
  { apply Zdigits2_le; [done|].
    destruct (Zdigits2_bounds _ Hm') as (_ & _ & Hhi).
    assert (2 ^ Zdigits2 (shr_m mrs') <= 2 ^ prec) by (apply Z.pow_le_mono_r; lia).
    unfold prec in *. rewrite Z.pow_add_r by lia. lia. }
  destruct (shr_m mrs'') as [|p|p]; try lia.
  destruct (Z.leb_spec e'' (emax - prec)); [left; eauto|right; split; [done|lia]].
Qed.

Lemma iter_xO_mul m d : Z.pos (Pos.iter xO m d) = Z.pos m * 2 ^ Z.pos d.
Proof.
  induction d as [|d IH] using Pos.peano_ind.
  - simpl. lia.
  - rewrite Pos.iter_succ, Pos2Z.inj_xO, IH, Pos2Z.inj_succ, Z.pow_succ_r by lia. lia.
Qed.

Lemma shl_align_spec m e e' m' e'' :
  shl_align m e e' = (m', e'') ->
  e'' = Z.min e e' ∧ Z.pos m' = Z.pos m * 2 ^ (e - e'').
Proof.
  unfold shl_align. destruct (e' - e) as [|d|d] eqn:Hd; intros [= <- <-].
  - split; [lia|]. rewrite Z.sub_diag. simpl. lia.
  - split; [lia|]. rewrite Z.sub_diag. simpl. lia.
  - split; [lia|]. rewrite iter_xO_mul. do 2 f_equal. lia.
Qed.

Lemma Zdigits2_mul_pow2 m k :
  0 < m -> 0 <= k -> Zdigits2 (m * 2 ^ k) = Zdigits2 m + k.
Proof.
  intros Hm Hk. destruct (Zdigits2_bounds m Hm) as (Hd & Hlo & Hhi).
  assert (0 < 2 ^ k) by (apply Z.pow_pos_nonneg; lia).
  apply Zdigits2_unique; [lia|].
  replace (Zdigits2 m + k - 1) with (Zdigits2 m - 1 + k) by lia.
  rewrite !Z.pow_add_r by lia. nia.
Qed.

Lemma binary_round_pos sx m e :
  SpecFloat.emin prec emax <= e ->
  (∃ m' e', binary_round prec emax sx m e = S754_finite sx m' e') ∨
  (binary_round prec emax sx m e = S754_infinity sx ∧
   emax - prec <= Z.max e (Z.pos (digits2_pos m) + e - prec)).
Proof.
  intros He. unfold binary_round.
  destruct (shl_align m e _) as [mz ez] eqn:Hal.
  apply shl_align_spec in Hal as [Hez Hmz].
  assert (SpecFloat.emin prec emax <= ez).
  { unfold fexp in Hez. lia. }
  assert (Zdigits2 (Z.pos mz) + ez = Z.pos (digits2_pos m) + e).
  { rewrite Hmz, Zdigits2_mul_pow2 by lia. simpl. lia. }
  destruct (binary_round_aux_pos sx (Z.pos mz) ez loc_Exact) as [?|[? ?]]; [lia|done|by left|].
  right. split; [done|lia].
Qed.

(** [float(n)] never overflows on a 64-bit integer. *)
Lemma binary_normalize_int64_finite n :
  - 2 ^ 64 < n < 2 ^ 64 ->
  forall s, binary_normalize prec emax n 0 false <> S754_infinity s.
Proof.
  intros Hn s. unfold binary_normalize.
  assert (Hd : forall p, Z.pos p < 2 ^ 64 -> Z.pos (digits2_pos p) <= 64).
  { intros p Hp. apply (Zdigits2_le (Z.pos p)); lia. }
  assert (He : SpecFloat.emin prec emax <= 0) by (unfold SpecFloat.emin, prec, emax; lia).
  destruct n as [|p|p]; [done| |].
  - destruct (binary_round_pos false p 0 He) as [(m' & e' & ->)|[_ Hbig]]; [done|].
    specialize (Hd p). unfold prec, emax in *. lia.
  - destruct (binary_round_pos true p 0 He) as [(m' & e' & ->)|[_ Hbig]]; [done|].
    specialize (Hd p). unfold prec, emax in *. lia.
Qed.

Lemma canonical_mantissa_bounds m e :
  canonical_mantissa prec emax m e = true ->
  SpecFloat.emin prec emax <= e ∧ Z.pos m < 2 ^ prec ∧
  (SpecFloat.emin prec emax < e -> 2 ^ (prec - 1) <= Z.pos m).
Proof.
  unfold canonical_mantissa, fexp. intros H%Z.eqb_eq.
  pose proof (digits2_pos_bounds m) as [Hlo Hhi].
  assert (Z.pos (digits2_pos m) <= prec) by lia.
  assert (2 ^ Z.pos (digits2_pos m) <= 2 ^ prec) by (apply Z.pow_le_mono_r; lia).
  repeat split; [lia|lia|].
  intros He. replace (prec - 1) with (Z.pos (digits2_pos m) - 1) by lia. done.
Qed.

(** The exact difference of two doubles [x < y], as an integer multiple of
    the smaller unit, is negative. *)
Lemma aligned_difference_neg s1 m1 e1 s2 m2 e2 :
  bounded prec emax m1 e1 = true -> bounded prec emax m2 e2 = true ->
  SFltb (S754_finite s1 m1 e1) (S754_finite s2 m2 e2) = true ->
  cond_Zopp s1 (Z.pos (shl_align m1 e1 (Z.min e1 e2)).1) -
  cond_Zopp s2 (Z.pos (shl_align m2 e2 (Z.min e1 e2)).1) < 0.
Proof.
  intros [(Hmin1 & Hhi1 & Hlo1)%canonical_mantissa_bounds _]%andb_prop
         [(Hmin2 & Hhi2 & Hlo2)%canonical_mantissa_bounds _]%andb_prop.
  destruct (shl_align m1 e1 _) as [a1 z1] eqn:A1.
  destruct (shl_align m2 e2 _) as [a2 z2] eqn:A2.
  cbn [fst]. apply shl_align_spec in A1 as [-> ->], A2 as [-> ->].
  replace (Z.min e1 (Z.min e1 e2)) with (Z.min e1 e2) by lia.
  replace (Z.min e2 (Z.min e1 e2)) with (Z.min e1 e2) by lia.
  assert (Hstep : forall k, 0 < k -> 2 <= 2 ^ k).
  { intros k Hk. change 2 with (2 ^ 1) at 1. apply Z.pow_le_mono_r; lia. }
  assert (Hpr : 2 ^ prec = 2 * 2 ^ (prec - 1)).
  { reflexivity. }
  unfold SFltb, SFcompare.
  destruct s1, s2; cbn [cond_Zopp]; try discriminate.
  - destruct (Z.compare_spec e1 e2) as [->|Hlt|Hgt]; try discriminate.
    + rewrite Z.min_id, Z.sub_diag, Z.pow_0_r.
      change (Pos.compare_cont Eq m1 m2) with (m1 ?= m2)%positive.
      destruct (Pos.compare_spec m1 m2); try discriminate. lia.
    + intros _. rewrite Z.min_r, Z.sub_diag, Z.pow_0_r by lia.
      specialize (Hlo1 ltac:(lia)). specialize (Hstep (e1 - e2) ltac:(lia)). nia.
  - intros _.
    assert (0 < 2 ^ (e1 - Z.min e1 e2)) by (apply Z.pow_pos_nonneg; lia).
    assert (0 < 2 ^ (e2 - Z.min e1 e2)) by (apply Z.pow_pos_nonneg; lia).
    nia.
  - destruct (Z.compare_spec e1 e2) as [->|Hlt|Hgt]; try discriminate.
    + rewrite Z.min_id, Z.sub_diag, Z.pow_0_r.
      change (Pos.compare_cont Eq m1 m2) with (m1 ?= m2)%positive.
      destruct (Pos.compare_spec m1 m2); try discriminate. lia.
    + intros _. rewrite Z.min_l, Z.sub_diag, Z.pow_0_r by lia.
      specialize (Hlo2 ltac:(lia)). specialize (Hstep (e2 - e1) ltac:(lia)). nia.
Qed.

(** Subtraction of doubles keeps order: [x < y] gives [x - y < 0].  (With
    gradual underflow the difference of two distinct doubles never rounds to
    zero.) *)
Lemma SFsub_lt_zero a b :
  valid_binary a = true -> valid_binary b = true ->
  SFltb a b = true ->
  SFltb (SF64sub a b) (S754_zero false) = true.
Proof.
  intros Ha Hb. unfold SF64sub.
  destruct a as [sa|sa| |sa ma ea], b as [sb|sb| |sb mb eb];
    try discriminate; try (by destruct sa; try destruct sb).
  intros Hlt. cbn [SFsub].
  pose proof (aligned_difference_neg _ _ _ _ _ _ Ha Hb Hlt) as Hneg.
  simpl in Ha, Hb.
  apply andb_prop in Ha as [(Hmin1 & _)%canonical_mantissa_bounds _].
  apply andb_prop in Hb as [(Hmin2 & _)%canonical_mantissa_bounds _].
  set (d := cond_Zopp _ _ - cond_Zopp _ _) in *.
  destruct d as [|p|p]; try lia.
  unfold binary_normalize.
  destruct (binary_round_pos true p (Z.min ea eb)) as [(m' & e' & ->)|[-> _]];
    [lia|reflexivity|reflexivity].
Qed.

Lemma float_sub_lt_zero (x y : float) :
  (x <? y)%float = true -> (x - y <? 0)%float = true.
Proof.
  rewrite !ltb_spec, sub_spec. intros Hlt.
  change (Prim2SF 0) with (S754_zero false).
  apply SFsub_lt_zero; auto using Prim2SF_valid.
Qed.

End Binary64.

(** ** From integers to doubles

    [float(n)] rounds to the nearest double.  On the integers [read_csv]
    yields this keeps the order of [n] with every double, up to equality:
    the rounded value is [n] or a neighbour of [n] on the grid of doubles,
    and no double lies strictly between [n] and that neighbour. *)

Section Conversion.

Local Open Scope Z_scope.

Lemma holds_int_valid sf V : holds_int sf V -> valid_binary sf = true.
Proof. destruct sf; simpl; try done. by intros [? _]. Qed.

(** The comparison of two valid finite doubles is the comparison of their
    mantissas brought to the smaller exponent. *)
Lemma SFcompare_finite_aligned s1 m1 e1 s2 m2 e2 :
  bounded prec emax m1 e1 = true -> bounded prec emax m2 e2 = true ->
  SFcompare (S754_finite s1 m1 e1) (S754_finite s2 m2 e2)
  = Some (cond_Zopp s1 (Z.pos m1 * 2 ^ (e1 - Z.min e1 e2))
          ?= cond_Zopp s2 (Z.pos m2 * 2 ^ (e2 - Z.min e1 e2))).
Proof.
  intros [(Hmin1 & Hhi1 & Hlo1)%canonical_mantissa_bounds _]%andb_prop
         [(Hmin2 & Hhi2 & Hlo2)%canonical_mantissa_bounds _]%andb_prop.
  assert (Hstep : forall k, 0 < k -> 2 <= 2 ^ k).
  { intros k Hk. change 2 with (2 ^ 1) at 1. apply Z.pow_le_mono_r; lia. }
  assert (Hpr : 2 ^ prec = 2 * 2 ^ (prec - 1)) by reflexivity.
  assert (Hp1 : 0 < 2 ^ (e1 - Z.min e1 e2)) by (apply Z.pow_pos_nonneg; lia).
  assert (Hp2 : 0 < 2 ^ (e2 - Z.min e1 e2)) by (apply Z.pow_pos_nonneg; lia).
  unfold SFcompare. f_equal.
  destruct s1, s2; cbn [cond_Zopp].
  - destruct (Z.compare_spec e1 e2) as [->|Hlt|Hgt].
    + rewrite Z.min_id, Z.sub_diag, Z.pow_0_r, !Z.mul_1_r.
      change (Pos.compare_cont Eq m1 m2) with (m1 ?= m2)%positive.
      rewrite Z.compare_opp. by rewrite <- Pos.compare_antisym.
    + symmetry. apply Z.compare_gt_iff.
      rewrite Z.min_l, Z.sub_diag, Z.pow_0_r in * by lia.
      specialize (Hlo2 ltac:(lia)). specialize (Hstep (e2 - e1) ltac:(lia)). nia.
    + symmetry. apply Z.compare_lt_iff.
      rewrite Z.min_r, Z.sub_diag, Z.pow_0_r in * by lia.
      specialize (Hlo1 ltac:(lia)). specialize (Hstep (e1 - e2) ltac:(lia)). nia.
  - symmetry. apply Z.compare_lt_iff. nia.
  - symmetry. apply Z.compare_gt_iff. nia.
  - destruct (Z.compare_spec e1 e2) as [->|Hlt|Hgt].
    + rewrite Z.min_id, Z.sub_diag, Z.pow_0_r, !Z.mul_1_r. reflexivity.
    + symmetry. apply Z.compare_lt_iff.
      rewrite Z.min_l, Z.sub_diag, Z.pow_0_r in * by lia.
      specialize (Hlo2 ltac:(lia)). specialize (Hstep (e2 - e1) ltac:(lia)). nia.
    + symmetry. apply Z.compare_gt_iff.
      rewrite Z.min_r, Z.sub_diag, Z.pow_0_r in * by lia.
      specialize (Hlo1 ltac:(lia)). specialize (Hstep (e1 - e2) ltac:(lia)). nia.
Qed.

Lemma Z_compare_SF_finite V s m e :
  Z_compare_SF V (S754_finite s m e)
  = Some (V * 2 ^ Z.max 0 (- e) ?= cond_Zopp s (Z.pos m) * 2 ^ Z.max 0 e).
Proof.
  cbn [Z_compare_SF]. f_equal. destruct (Z.leb_spec 0 e).
  - rewrite Z.max_l, Z.max_r, Z.pow_0_r by lia. f_equal. lia.
  - rewrite Z.max_r, Z.max_l, Z.pow_0_r by lia. f_equal. lia.
Qed.

Lemma compare_scale a b c : 0 < c -> (a * c ?= b * c) = (a ?= b).
Proof.
  intros Hc. destruct (Z.compare_spec a b) as [->|Hlt|Hgt].
  - apply Z.compare_refl.
  - apply Z.compare_lt_iff. nia.
  - apply Z.compare_gt_iff. nia.
Qed.

(** Comparing a double that holds the integer [V] with a valid double is
    comparing [V] with it exactly. *)
Lemma SFcompare_holds_int sf V Y :
  holds_int sf V -> valid_binary Y = true ->
  SFcompare sf Y = Z_compare_SF V Y.
Proof.
  destruct sf as [s1| | |s1 m1 e1]; try done.
  - intros [-> ->] _. destruct Y as [s|s| |s m e]; try done.
    rewrite Z_compare_SF_finite. cbn [SFcompare]. f_equal. symmetry.
    assert (0 < 2 ^ Z.max 0 e) by (apply Z.pow_pos_nonneg; lia).
    destruct s; cbn [cond_Zopp];
      [apply Z.compare_gt_iff|apply Z.compare_lt_iff]; nia.
  - intros [Hb1 HV] HY. destruct Y as [s|s| |s2 m2 e2]; try done.
    + cbn. f_equal. symmetry.
      assert (0 < 2 ^ Z.max 0 (- e1)) by (apply Z.pow_pos_nonneg; lia).
      assert (0 < 2 ^ Z.max 0 e1) by (apply Z.pow_pos_nonneg; lia).
      destruct s1; cbn [cond_Zopp] in HV;
        [apply Z.compare_lt_iff|apply Z.compare_gt_iff]; nia.
    + simpl in HY. rewrite SFcompare_finite_aligned, Z_compare_SF_finite by done.
      f_equal.
      set (z := Z.min e1 e2).
      set (v1 := cond_Zopp s1 (Z.pos m1)) in *.
      set (v2 := cond_Zopp s2 (Z.pos m2)) in *.
      assert (Hc1 : cond_Zopp s1 (Z.pos m1 * 2 ^ (e1 - z)) = v1 * 2 ^ (e1 - z))
        by (subst v1; destruct s1; cbn; lia).
      assert (Hc2 : cond_Zopp s2 (Z.pos m2 * 2 ^ (e2 - z)) = v2 * 2 ^ (e2 - z))
        by (subst v2; destruct s2; cbn; lia).
      rewrite Hc1, Hc2.
      (* both sides are scaled to the common unit [2^(- max 0 (-e1) - max 0 (-e2))] *)
      rewrite <- (compare_scale (V * _) _ (2 ^ Z.max 0 (- e1)))
        by (apply Z.pow_pos_nonneg; lia).
      rewrite <- (compare_scale (v1 * 2 ^ (e1 - z)) _
                    (2 ^ (Z.max 0 (- e1) + Z.max 0 (- e2) + z)))
        by (apply Z.pow_pos_nonneg; subst z; lia).
      f_equal.
      * replace (V * 2 ^ Z.max 0 (- e2) * 2 ^ Z.max 0 (- e1))
          with (V * 2 ^ Z.max 0 (- e1) * 2 ^ Z.max 0 (- e2)) by lia.
        rewrite HV, <- !Z.mul_assoc, <- !Z.pow_add_r by (subst z; lia).
        do 2 f_equal. subst z. lia.
      * rewrite <- !Z.mul_assoc, <- !Z.pow_add_r by (subst z; lia).
        do 2 f_equal. subst z. lia.
Qed.

(** The first rounding shift, in full: what the mantissa becomes. *)
Lemma shr_fexp_shift m e l mrs e' :
  0 < m -> SpecFloat.emin prec emax <= e ->
  shr_fexp prec emax m e l = (mrs, e') ->
  e' = e + Z.max 0 (Zdigits2 m - prec) ∧
  shr_m mrs = m / 2 ^ (e' - e) ∧
  (Zdigits2 m <= prec -> mrs = shr_record_of_loc m l).
Proof.
  intros Hm He. destruct (Zdigits2_bounds m Hm) as (Hd & Hlo & Hhi).
  unfold shr_fexp, shr, fexp, SpecFloat.emin, prec, emax in *.
  destruct (Z.max (Zdigits2 m + e - 53) (3 - 1024 - 53) - e) as [|p|p] eqn:Hn;
    intros [= <- <-].
  - split_and!; [lia| |done].
    by rewrite shr_record_of_loc_m, Z.sub_diag, Z.div_1_r.
  - rewrite iter_shr_1_m, shr_record_of_loc_m by (rewrite shr_record_of_loc_m; lia).
    split_and!; [lia| |lia]. do 2 f_equal. lia.
  - split_and!; [lia| |done].
    by rewrite shr_record_of_loc_m, Z.sub_diag, Z.div_1_r.
Qed.

(** Rounding an exact positive mantissa that needs no more than [prec]
    digits changes nothing. *)
Lemma binary_round_aux_short sx m e :
  Zdigits2 (Z.pos m) <= prec -> SpecFloat.emin prec emax <= e -> e <= emax - prec ->
  binary_round_aux prec emax sx (Z.pos m) e loc_Exact = S754_finite sx m e.
Proof.
  intros Hd He Hmax. unfold binary_round_aux.
  destruct (shr_fexp prec emax (Z.pos m) e loc_Exact) as [mrs' e'] eqn:H1.
  apply shr_fexp_shift in H1 as (He' & _ & Hrec); [|lia|done].
  rewrite (Hrec Hd), Z.max_l, Z.add_0_r in * by lia. subst e'.
  cbn [shr_record_of_loc loc_of_shr_record round_nearest_even shr_m].
  destruct (shr_fexp prec emax (Z.pos m) e loc_Exact) as [mrs'' e''] eqn:H2.
  apply shr_fexp_shift in H2 as (He'' & _ & Hrec'); [|lia|done].
  rewrite (Hrec' Hd), Z.max_l, Z.add_0_r in * by lia. subst e''.
  cbn [shr_record_of_loc shr_m].
  destruct (Z.leb_spec e (emax - prec)); [done|lia].
Qed.

(** Rounding an exact positive mantissa of more than [prec] digits: the
    result is a valid double at one of the two neighbours of the value on the
    grid of step [2^k], [k] the number of digits in excess. *)
Lemma binary_round_aux_long sx m e :
  prec < Zdigits2 (Z.pos m) -> SpecFloat.emin prec emax <= e ->
  Zdigits2 (Z.pos m) + e < emax ->
  let k := Zdigits2 (Z.pos m) - prec in
  ∃ m' e',
    binary_round_aux prec emax sx (Z.pos m) e loc_Exact = S754_finite sx m' e' ∧
    bounded prec emax m' e' = true ∧ e + k <= e' ∧
    (Z.pos m' * 2 ^ (e' - e) = Z.pos m / 2 ^ k * 2 ^ k ∨
     Z.pos m' * 2 ^ (e' - e) = (Z.pos m / 2 ^ k + 1) * 2 ^ k).
Proof.
  intros Hd He Hmax k. unfold binary_round_aux.
  destruct (Zdigits2_bounds (Z.pos m) ltac:(lia)) as (_ & Hlo & Hhi).
  destruct (shr_fexp prec emax (Z.pos m) e loc_Exact) as [mrs' e'] eqn:H1.
  apply shr_fexp_shift in H1 as (He' & Hq & _); [|lia|done].
  rewrite Z.max_r in He' by lia. fold k in He'.
  replace (e' - e) with k in Hq by lia.
  assert (Hk : 0 < 2 ^ k) by (apply Z.pow_pos_nonneg; lia).
  assert (Hq' : 2 ^ (prec - 1) <= Z.pos m / 2 ^ k < 2 ^ prec).
  { split.
    - apply Z.div_le_lower_bound; [done|].
      rewrite <- Z.pow_add_r by (unfold prec in *; lia).
      replace (k + (prec - 1)) with (Zdigits2 (Z.pos m) - 1) by lia. lia.
    - apply Z.div_lt_upper_bound; [done|].
      rewrite <- Z.pow_add_r by (unfold prec in *; lia).
      replace (k + prec) with (Zdigits2 (Z.pos m)) by lia. lia. }
  pose proof (round_nearest_even_bounds (shr_m mrs') (loc_of_shr_record mrs')) as Hr.
  set (m1 := round_nearest_even (shr_m mrs') (loc_of_shr_record mrs')) in *.
  rewrite Hq in Hr. set (q := Z.pos m / 2 ^ k) in *.
  assert (Hm1 : m1 = q ∨ m1 = q + 1) by lia.
  assert (Hpos1 : 0 < m1) by (unfold prec in *; simpl in Hq'; lia).
  destruct (shr_fexp prec emax m1 e' loc_Exact) as [mrs'' e''] eqn:H2.
  apply shr_fexp_shift in H2 as (He'' & Hm'' & _); [|lia|lia].
  destruct (Z.eq_dec m1 (2 ^ prec)) as [Htop|Htop].
  - (* the mantissa was rounded up to [2^prec]: one more shift *)
    assert (Zdigits2 m1 = prec + 1) as Hd1.
    { apply Zdigits2_unique; [done|]. rewrite Htop.
      replace (prec + 1 - 1) with prec by lia. split; [lia|].
      apply Z.pow_lt_mono_r; unfold prec; lia. }
    rewrite Hd1, Z.max_r in He'' by lia.
    replace (e'' - e') with 1 in Hm'' by lia.
    rewrite Htop in Hm''. change (2 ^ prec / 2 ^ 1) with (2 ^ (prec - 1)) in Hm''.
    rewrite Hm''. change (2 ^ (prec - 1)) with (Z.pos (2 ^ 52)).
    destruct (Z.leb_spec e'' (emax - prec)); [|unfold prec, emax in *; lia].
    eexists _, _. split_and!; [done| |lia|].
    + unfold bounded, canonical_mantissa, fexp, SpecFloat.emin.
      change (Z.pos (digits2_pos (2 ^ 52))) with 53.
      apply andb_true_intro. split; [apply Z.eqb_eq|apply Z.leb_le];
        unfold SpecFloat.emin, prec, emax in *; lia.
    + assert (m1 = q + 1) as Hup by (unfold prec in *; simpl in Hq', Htop; lia).
      right. rewrite <- Hup, Htop.
      replace (e'' - e) with (k + 1) by lia.
      rewrite Z.pow_add_r by lia. change (Z.pos (2 ^ 52)) with (2 ^ 52).
      change (2 ^ prec) with (2 ^ 52 * 2). lia.
  - assert (m1 < 2 ^ prec) as Hlt1 by lia.
    assert (Zdigits2 m1 = prec) as Hd1.
    { apply Zdigits2_unique; [done|]. split; lia. }
    rewrite Hd1, Z.max_l, Z.add_0_r in He'' by lia. subst e''.
    rewrite Z.sub_diag, Z.pow_0_r, Z.div_1_r in Hm''. rewrite Hm''.
    destruct m1 as [|p1|p1]; try lia.
    destruct (Z.leb_spec e' (emax - prec)); [|unfold prec, emax in *; lia].
    eexists _, _. split_and!; [done| |lia|].
    + unfold bounded, canonical_mantissa, fexp, SpecFloat.emin.
      apply andb_true_intro. split; [apply Z.eqb_eq|apply Z.leb_le]; [|lia].
      change (Z.pos (digits2_pos p1)) with (Zdigits2 (Z.pos p1)).
      unfold SpecFloat.emin, prec, emax in *. lia.
    + replace (e' - e) with k by lia. destruct Hm1 as [->| ->]; auto.
Qed.

(** The double nearest to a positive integer below [2^64]. *)
Lemma binary_round_int sx p :
  Z.pos p < 2 ^ 64 ->
  ∃ m e V,
    binary_round prec emax sx p 0 = S754_finite sx m e ∧
    bounded prec emax m e = true ∧
    V * 2 ^ Z.max 0 (- e) = Z.pos m * 2 ^ Z.max 0 e ∧
    0 < V ∧ grid_neighbour (Z.pos p) V ∧
    (Z.pos p < 2 ^ 53 -> V = Z.pos p).
Proof.
  intros Hp. unfold binary_round.
  pose proof (digits2_pos_bounds p) as [Hlo Hhi].
  assert (Hd64 : Z.pos (digits2_pos p) <= 64) by (apply (Zdigits2_le (Z.pos p)); lia).
  assert (Hfexp : fexp prec emax (Z.pos (digits2_pos p) + 0) = Z.pos (digits2_pos p) - 53).
  { unfold fexp, SpecFloat.emin, prec, emax. lia. }
  rewrite Hfexp.
  destruct (shl_align p 0 _) as [mz ez] eqn:Hal.
  apply shl_align_spec in Hal as [Hez Hmz].
  destruct (Z.le_gt_cases (Z.pos (digits2_pos p)) 53) as [Hshort|Hlong].
  - (* at most 53 digits: the integer is a double *)
    assert (ez = Z.pos (digits2_pos p) - 53) as -> by lia.
    assert (Hdz : Zdigits2 (Z.pos mz) = 53).
    { rewrite Hmz, Zdigits2_mul_pow2 by lia. simpl. lia. }
    rewrite binary_round_aux_short by (unfold SpecFloat.emin, prec, emax; lia).
    exists mz, (Z.pos (digits2_pos p) - 53), (Z.pos p). split_and!; try done.
    + unfold bounded, canonical_mantissa, fexp, SpecFloat.emin.
      change (Z.pos (digits2_pos mz)) with (Zdigits2 (Z.pos mz)). rewrite Hdz.
      apply andb_true_intro. split; [apply Z.eqb_eq|apply Z.leb_le];
        unfold prec, emax; lia.
    + rewrite Z.max_r, Z.max_l, Z.pow_0_r, Hmz, Z.mul_1_r by lia. do 2 f_equal; lia.
    + by left.
  - (* more: it is rounded to 53 digits *)
    assert (ez = 0) as -> by lia.
    assert (mz = p) as -> by (rewrite Z.sub_diag, Z.pow_0_r in Hmz; lia).
    destruct (binary_round_aux_long sx p 0) as (m' & e' & -> & Hb & He' & Hval);
      [simpl; unfold prec; lia|unfold SpecFloat.emin, prec, emax; lia
      |simpl; unfold emax; lia|].
    cbn [Zdigits2] in He', Hval. rewrite Z.sub_0_r in Hval.
    set (k := Z.pos (digits2_pos p) - prec) in *.
    assert (Hk : 0 < k) by (unfold k, prec; lia).
    assert (H2k : 0 < 2 ^ k) by (apply Z.pow_pos_nonneg; lia).
    assert (Hq : 0 <= Z.pos p / 2 ^ k) by (apply Z.div_pos; lia).
    exists m', e', (Z.pos m' * 2 ^ e'). split_and!; try done.
    + by rewrite Z.max_l, Z.max_r, Z.pow_0_r, Z.mul_1_r by lia.
    + apply Z.mul_pos_pos; [lia|apply Z.pow_pos_nonneg; lia].
    + right. exists k. split_and!; [done| | |done].
      * replace (52 + k) with (Z.pos (digits2_pos p) - 1) by (unfold k, prec; lia). done.
      * replace (53 + k) with (Z.pos (digits2_pos p)) by (unfold k, prec; lia). done.
    + intros Hsmall. exfalso.
      assert (2 ^ 53 <= 2 ^ (Z.pos (digits2_pos p) - 1)) by (apply Z.pow_le_mono_r; lia).
      lia.
Qed.

(** The double nearest to an integer of at most 64 bits holds an integer:
    the integer itself up to [2^53], a grid neighbour of it beyond. *)
Lemma binary_normalize_int n :
  - 2 ^ 64 < n < 2 ^ 64 ->
  ∃ V,
    holds_int (binary_normalize prec emax n 0 false) V ∧
    (Z.abs n <= 2 ^ 53 -> V = n) ∧
    grid_neighbour (Z.abs n) (Z.abs V) ∧ Z.sgn V = Z.sgn n.
Proof.
  intros Hn.
  destruct (Z.eq_dec (Z.abs n) (2 ^ 53)) as [Htop|Htop].
  { assert (Hcases : n = 2 ^ 53 ∨ n = - 2 ^ 53) by lia.
    exists n. clear Hn Htop. destruct Hcases as [Hv|Hv]; subst n; split_and!.
    all: try done; try (by left). all: vm_compute; split; reflexivity. }
  destruct n as [|p|p]; unfold binary_normalize.
  - exists 0. split_and!; [done|done|by left|done].
  - destruct (binary_round_int false p) as (m & e & V & -> & Hb & HV & Hpos & Hgrid & Hsmall);
      [lia|].
    exists V. split_and!; [done| |by rewrite (Z.abs_eq V) by lia|].
    + intros Hle. apply Hsmall. simpl in Hle, Htop. lia.
    + rewrite !Z.sgn_pos; lia.
  - destruct (binary_round_int true p) as (m & e & V & -> & Hb & HV & Hpos & Hgrid & Hsmall);
      [lia|].
    exists (- V). split_and!.
    + split; [done|]. cbn [cond_Zopp]. lia.
    + intros Hle. rewrite Hsmall; [done|]. simpl in Hle, Htop. lia.
    + by rewrite Z.abs_opp, (Z.abs_eq V) by lia.
    + rewrite !Z.sgn_neg; lia.
Qed.

Ltac order_facts :=
  try match goal with H : (?a ?= ?b)%Z = Lt |- _ => change (a < b)%Z in H end;
  try match goal with H : (?a ?= ?b)%Z = Gt |- _ => change (a > b)%Z in H end;
  try match goal with |- (?a ?= ?b)%Z = Lt => change (a < b)%Z end;
  try match goal with |- (?a ?= ?b)%Z = Gt => change (a > b)%Z end.

(** A valid double above (below) a positive integer is not below (above)
    the integer's grid neighbours: rounding to nearest does not jump over a
    double. *)
Lemma grid_neighbour_keeps_order p V Y :
  0 < p -> 0 < V -> grid_neighbour p V -> valid_binary Y = true ->
  (Z_compare_SF p Y = Some Lt ->
   Z_compare_SF V Y = Some Lt ∨ Z_compare_SF V Y = Some Eq) ∧
  (Z_compare_SF p Y = Some Gt ->
   Z_compare_SF V Y = Some Gt ∨ Z_compare_SF V Y = Some Eq).
Proof.
  intros Hp HV [->|(k & Hk & [Hlo Hhi] & Hval)] HY; [by split; left|].
  assert (H2k : 0 < 2 ^ k) by (apply Z.pow_pos_nonneg; lia).
  pose proof (Z.mul_div_le p (2 ^ k) H2k) as Hq1.
  pose proof (Z.mul_succ_div_gt p (2 ^ k) H2k) as Hq2.
  assert (Hq52 : 2 ^ 52 <= p / 2 ^ k).
  { apply Z.div_le_lower_bound; [done|]. rewrite <- Z.pow_add_r by lia.
    replace (k + 52) with (52 + k) by lia. done. }
  rewrite Z.pow_add_r in Hlo, Hhi by lia.
  set (q := p / 2 ^ k) in *. set (K := 2 ^ k) in *.
  assert (HVq : q * K <= V <= (q + 1) * K) by (destruct Hval as [->| ->]; nia).
  destruct Y as [s|s| |s m e]; try done; cbn [Z_compare_SF].
  - (* zero *)
    split; intros [= Hc]; left; f_equal; order_facts; nia.
  - (* infinity *) by split; left.
  - (* finite *)
    simpl in HY. apply andb_prop in HY as [(Hmin & Hmhi & Hmlo)%canonical_mantissa_bounds _].
    change (2 ^ prec) with (2 ^ 53) in Hmhi.
    destruct (Z.leb_spec 0 e) as [He|He].
    + assert (H2e : 0 < 2 ^ e) by (apply Z.pow_pos_nonneg; lia).
      destruct s; cbn [cond_Zopp].
      { split; intros [= Hc]; left; f_equal; order_facts; nia. }
      destruct (Z.le_gt_cases k e) as [Hke|Hke].
      * (* the double is on the grid *)
        assert (2 ^ e = 2 ^ (e - k) * K) as ->.
        { unfold K. rewrite <- Z.pow_add_r by lia. f_equal. lia. }
        assert (0 < 2 ^ (e - k)) by (apply Z.pow_pos_nonneg; lia).
        set (M := Z.pos m * 2 ^ (e - k)).
        replace (Z.pos m * (2 ^ (e - k) * K)) with (M * K) by (unfold M; lia).
        split; intros [= Hc].
        -- order_facts.
           assert (q + 1 <= M) by nia.
           destruct (Z.compare_spec V (M * K)); [by right|by left|nia].
        -- order_facts.
           assert (M <= q) by nia.
           destruct (Z.compare_spec V (M * K)); [by right|nia|by left].
      * (* the double is below the grid *)
        assert (2 ^ e * 2 <= K).
        { unfold K. replace k with (e + (k - e)) by lia.
          rewrite Z.pow_add_r by lia.
          assert (2 ^ 1 <= 2 ^ (k - e)) by (apply Z.pow_le_mono_r; lia). nia. }
        split; intros [= Hc]; left; f_equal; order_facts; nia.
    + assert (H2e : 2 <= 2 ^ (- e)).
      { change 2 with (2 ^ 1) at 1. apply Z.pow_le_mono_r; lia. }
      assert (Z.pos m < 2 ^ 53) by done.
      split; intros [= Hc]; left; f_equal;
        destruct s; cbn [cond_Zopp] in *; order_facts; nia.
Qed.

(** Changing both signs turns the order round. *)
Lemma Z_compare_SF_opp n Y :
  Z_compare_SF (- n) (SFopp Y) = option_map CompOpp (Z_compare_SF n Y).
Proof.
  destruct Y as [s|s| |s m e]; cbn [SFopp option_map]; try done.
  - cbn. f_equal. rewrite <- (Z.compare_opp 0 n). by rewrite Z.compare_antisym.
  - by destruct s.
  - rewrite !Z_compare_SF_finite. cbn [option_map]. f_equal.
    rewrite <- Z.compare_antisym, <- Z.compare_opp. f_equal; destruct s; cbn; lia.
Qed.

Lemma SFopp_valid Y : valid_binary (SFopp Y) = valid_binary Y.
Proof. by destruct Y. Qed.

(** Converting an integer of at most 64 bits keeps its order with every
    double, up to equality. *)
Lemma nearest_keeps_order n V Y :
  grid_neighbour (Z.abs n) (Z.abs V) -> Z.sgn V = Z.sgn n ->
  valid_binary Y = true ->
  (Z_compare_SF n Y = Some Lt ->
   Z_compare_SF V Y = Some Lt ∨ Z_compare_SF V Y = Some Eq) ∧
  (Z_compare_SF n Y = Some Gt ->
   Z_compare_SF V Y = Some Gt ∨ Z_compare_SF V Y = Some Eq).
Proof.
  intros Hgrid Hsgn HY.
  destruct (Z.lt_trichotomy n 0) as [Hneg|[->|Hpos]].
  - assert (V < 0) by (rewrite (Z.sgn_neg n) in Hsgn by done; lia).
    rewrite (Z.abs_neq n), (Z.abs_neq V) in Hgrid by lia.
    destruct (grid_neighbour_keeps_order (- n) (- V) (SFopp Y)) as [Hlt Hgt];
      [lia|lia|done|by rewrite SFopp_valid|].
    rewrite !Z_compare_SF_opp in Hlt, Hgt.
    destruct (Z_compare_SF n Y) as [[]|], (Z_compare_SF V Y) as [[]|];
      cbn in *; split; intros [=]; try (by left); try (by right);
      try (by destruct Hlt as [[=]|[=]]); try (by destruct Hgt as [[=]|[=]]).
  - assert (V = 0) as -> by (rewrite Z.sgn_0 in Hsgn; lia). by split; left.
  - assert (0 < V) by (rewrite (Z.sgn_pos n) in Hsgn by done; lia).
    rewrite (Z.abs_eq n), (Z.abs_eq V) in Hgrid by lia.
    by apply grid_neighbour_keeps_order.
Qed.

(** The order of doubles, read the other way round. *)
Lemma SFcompare_antisym a b :
  SFcompare b a = option_map CompOpp (SFcompare a b).
Proof.
  destruct a as [sa|sa| |sa ma ea], b as [sb|sb| |sb mb eb]; cbn [SFcompare option_map];
    try reflexivity; try (by destruct sa); try (by destruct sb);
    try (by destruct sa, sb).
  f_equal. rewrite (Z.compare_antisym ea eb).
  change (Pos.compare_cont Eq mb ma) with (mb ?= ma)%positive.
  change (Pos.compare_cont Eq ma mb) with (ma ?= mb)%positive.
  rewrite (Pos.compare_antisym ma mb).
  by destruct sa, sb, (ea ?= eb), (ma ?= mb)%positive.
Qed.

(** Two doubles that compare equal, one of them not zero, are the same
    double. *)
Lemma SFcompare_Eq_finite s m e Y :
  SFcompare (S754_finite s m e) Y = Some Eq -> Y = S754_finite s m e.
Proof.
  destruct Y as [sy|sy| |sy my ey]; cbn [SFcompare]; try (by destruct s);
    try (by destruct s, sy).
  change (Pos.compare_cont Eq m my) with (m ?= my)%positive.
  intros [= Hc].
  destruct s, sy; try discriminate;
    destruct (Z.compare_spec e ey) as [->| |]; try discriminate;
    destruct (Pos.compare_spec m my) as [->| |]; try discriminate; reflexivity.
Qed.

(** A double that is not zero, taken from itself, leaves [+0.0]. *)
Lemma SFsub_diag s m e :
  SF64sub (S754_finite s m e) (S754_finite s m e) = S754_zero false.
Proof.
  unfold SF64sub. cbn [SFsub]. by rewrite Z.sub_diag.
Qed.

Lemma float_sub_diag (x y : float) s m e :
  Prim2SF x = S754_finite s m e -> Prim2SF y = S754_finite s m e ->
  (x - y)%float = 0%float.
Proof.
  intros Hx Hy. apply Prim2SF_inj. rewrite sub_spec, Hx, Hy, SFsub_diag. reflexivity.
Qed.

(** [float(n)] against a double [Y]: the conversion keeps the order of [n]
    and [Y], or lands on [Y]; without rounding it keeps the order. *)
Lemma float_of_int_order n x Y :
  - 2 ^ 64 < n < 2 ^ 64 -> float_of_int n = Ok x -> valid_binary Y = true ->
  (Z_compare_SF n Y = Some Lt ->
   SFltb (Prim2SF x) Y = true ∨
   ∃ s m e, Prim2SF x = S754_finite s m e ∧ Y = S754_finite s m e) ∧
  (Z_compare_SF n Y = Some Gt ->
   SFltb Y (Prim2SF x) = true ∨
   ∃ s m e, Prim2SF x = S754_finite s m e ∧ Y = S754_finite s m e) ∧
  (Z.abs n <= 2 ^ 53 -> SFcompare (Prim2SF x) Y = Z_compare_SF n Y).
Proof.
  intros Hn Hx HY. unfold float_of_int in Hx.
  destruct (binary_normalize_int n Hn) as (V & Hint & Hexact & Hgrid & Hsgn).
  set (sf := binary_normalize prec emax n 0 false) in *.
  assert (Hsf : Prim2SF x = sf).
  { assert (x = SF2Prim sf) as -> by (destruct sf; congruence).
    apply Prim2SF_SF2Prim, (holds_int_valid _ _ Hint). }
  rewrite Hsf. clear Hx.
  pose proof (SFcompare_holds_int sf V Y Hint HY) as Hcmp.
  destruct (nearest_keeps_order n V Y Hgrid Hsgn HY) as [Hlt Hgt].
  assert (Hzero : forall s, sf = S754_zero s -> V = n).
  { intros s Hs. rewrite Hs in Hint. destruct Hint as [_ ->].
    rewrite Z.sgn_0 in Hsgn. symmetry in Hsgn. apply Z.sgn_null_iff in Hsgn. lia. }
  split_and!.
  - intros Hc. destruct (Hlt Hc) as [HV|HV].
    + left. unfold SFltb. by rewrite Hcmp, HV.
    + right. rewrite <- Hcmp in HV.
      destruct sf as [s|s| |s m e] eqn:Esf; try done.
      * rewrite (Hzero s eq_refl) in Hcmp. congruence.
      * exists s, m, e. split; [done|]. by apply SFcompare_Eq_finite.
  - intros Hc. destruct (Hgt Hc) as [HV|HV].
    + left. unfold SFltb. by rewrite (SFcompare_antisym sf Y), Hcmp, HV.
    + right. rewrite <- Hcmp in HV.
      destruct sf as [s|s| |s m e] eqn:Esf; try done.
      * rewrite (Hzero s eq_refl) in Hcmp. congruence.
      * exists s, m, e. split; [done|]. by apply SFcompare_Eq_finite.
  - intros Hle. by rewrite Hcmp, (Hexact Hle).
Qed.

End Conversion.

(** ** Text *)

Section Text.

Lemma str_drop_length n s : (String.length (str_drop n s) <= String.length s)%nat.
Proof.
  revert s; induction n as [|n IH]; intros [|c s]; simpl; try lia.
  specialize (IH s); lia.
Qed.

Lemma replace_from_cons_true old new c s :
  String.prefix old (String c s) = true ->
  replace_from old new (String c s) = new +:+ replace_from old new (str_drop (String.length old - 1) s).
Proof. intros H. simp replace_from. rewrite H. reflexivity. Qed.

Lemma replace_from_cons_false old new c s :
  String.prefix old (String c s) = false ->
  replace_from old new (String c s) = String c (replace_from old new s).
Proof. intros H. simp replace_from. rewrite H. reflexivity. Qed.

Lemma replace_from_absent old new s :
  occurs old s = false -> replace_from old new s = s.
Proof.
  induction s as [|c s IH]; [reflexivity|].
  cbn [occurs]. intros [Hp Hs]%orb_false_elim.
  rewrite replace_from_cons_false, IH by done. reflexivity.
Qed.

Lemma append_assoc s t u : (s +:+ t) +:+ u = s +:+ t +:+ u.
Proof.
  induction s as [|c s IH]; [reflexivity|].
  change (String c (s +:+ t) +:+ u = String c (s +:+ t +:+ u)).
  change (String c ((s +:+ t) +:+ u) = String c (s +:+ t +:+ u)). by rewrite IH.
Qed.

Lemma prefix_length p s : String.prefix p s = true -> (String.length p <= String.length s)%nat.
Proof.
  revert s; induction p as [|a p IH]; intros [|b s]; simpl; try lia; try discriminate.
  destruct (ascii_dec _ _); [|discriminate]. intros H%IH. lia.
Qed.

Lemma prefix_app p s t : String.prefix p s = true -> String.prefix p (s +:+ t) = true.
Proof.
  revert s; induction p as [|a p IH]; intros s.
  - by destruct (s +:+ t).
  - destruct s as [|b s]; simpl; [done|].
    destruct (ascii_dec a b); [apply IH|done].
Qed.

Lemma str_drop_app n s t :
  (n <= String.length s)%nat -> str_drop n (s +:+ t) = str_drop n s +:+ t.
Proof.
  revert s; induction n as [|n IH]; intros [|c s]; simpl; try lia; try done.
  intros H. apply IH. lia.
Qed.

(** No occurrence of [.wav] starts inside a name and ends inside a [.wav]
    that follows it: the letters after the dot are not dots. *)
Lemma wav_prefix_app_more c s t :
  String.prefix ".wav" (String c s +:+ ".wav" +:+ t) = String.prefix ".wav" (String c s).
Proof.
  destruct s as [|c1 [|c2 [|c3 s]]]; cbv [String.append]; cbn -[ascii_dec];
    repeat (destruct (ascii_dec _ _) as [<-|?]; try done).
  all: by destruct s.
Qed.

Lemma wav_prefix_app c s :
  String.prefix ".wav" (String c s +:+ ".wav") = String.prefix ".wav" (String c s).
Proof. exact (wav_prefix_app_more c s ""). Qed.

(** The leftmost occurrence is replaced and the scan goes on behind it. *)
Lemma replace_from_wav_first a b :
  occurs ".wav" a = false ->
  replace_from ".wav" ".jams" (a +:+ ".wav" +:+ b) =
  a +:+ ".jams" +:+ replace_from ".wav" ".jams" b.
Proof.
  induction a as [|c a IH].
  - intros _. change ("" +:+ ".wav" +:+ b) with (String "." ("wav" +:+ b)).
    rewrite replace_from_cons_true; [reflexivity|].
    by apply (prefix_app ".wav" ".wav" b).
  - cbn [occurs]. intros [Hp Ha]%orb_false_elim.
    change (String c a +:+ ".wav" +:+ b) with (String c (a +:+ ".wav" +:+ b)).
    rewrite replace_from_cons_false, IH by
      (try (change (String c (a +:+ ".wav" +:+ b)) with (String c a +:+ ".wav" +:+ b);
            rewrite wav_prefix_app_more); done).
    reflexivity.
Qed.

Lemma replace_from_wav_suffix stem :
  replace_from ".wav" ".jams" (stem +:+ ".wav") =
  replace_from ".wav" ".jams" stem +:+ ".jams".
Proof.
  remember (String.length stem) as n eqn:Hn. revert stem Hn.
  induction n as [n IH] using lt_wf_ind. intros [|c s] Hn; [reflexivity|].
  destruct (String.prefix ".wav" (String c s)) eqn:Hp.
  - pose proof (prefix_length _ _ Hp) as Hlen. simpl in Hlen.
    change (String c s +:+ ".wav") with (String c (s +:+ ".wav")).
    rewrite !replace_from_cons_true by (try apply (prefix_app _ (String c s)); done).
    change (String.length ".wav" - 1)%nat with 3%nat.
    rewrite str_drop_app by lia.
    rewrite (IH (String.length (str_drop 3 s))); [|subst n|done].
    + by rewrite append_assoc.
    + pose proof (str_drop_length 3 s).
      change (String.length (String c s)) with (S (String.length s)). lia.
  - change (String c s +:+ ".wav") with (String c (s +:+ ".wav")).
    assert (Hp' : String.prefix ".wav" (String c (s +:+ ".wav")) = false)
      by (change (String c (s +:+ ".wav")) with (String c s +:+ ".wav");
          by rewrite wav_prefix_app).
    rewrite (replace_from_cons_false _ _ _ _ Hp'), (replace_from_cons_false _ _ _ _ Hp).
    rewrite (IH (String.length s)); [done|subst n; simpl; lia|done].
Qed.

End Text.

(** [occurs] is the substring relation. *)
Lemma prefix_split p s : String.prefix p s = true <-> ∃ t, s = p +:+ t.
Proof.
  split.
  - revert s; induction p as [|a p IH]; intros s Hp; [by exists s|].
    destruct s as [|b s]; [done|]. simpl in Hp.
    destruct (ascii_dec a b) as [<-|]; [|done].
    destruct (IH s Hp) as [t ->]. by exists t.
  - intros [t ->]. induction p as [|a p IH]; [by destruct t|].
    change (String a p +:+ t) with (String a (p +:+ t)). simpl.
    by destruct (ascii_dec a a).
Qed.

Lemma occurs_split sub s : occurs sub s = true <-> ∃ a b, s = a +:+ sub +:+ b.
Proof.
  split.
  - induction s as [|c s IH]; cbn [occurs].
    + rewrite orb_false_r. intros [t ->]%prefix_split. by exists "", t.
    + intros [[t ->]%prefix_split|Hs]%orb_prop; [by exists "", t|].
      destruct (IH Hs) as (a & b & ->). by exists (String c a), b.
  - intros (a & b & ->). induction a as [|c a IH].
    + assert (String.prefix sub (sub +:+ b) = true) as Hp by (apply prefix_split; eauto).
      change ("" +:+ sub +:+ b) with (sub +:+ b).
      destruct (sub +:+ b); cbn [occurs]; by rewrite Hp.
    + change (String c a +:+ sub +:+ b) with (String c (a +:+ sub +:+ b)).
      cbn [occurs]. rewrite IH. apply orb_true_r.
Qed.

Lemma str_replace_absent old new s :
  old <> "" -> occurs old s = false -> str_replace old new s = s.
Proof.
  destruct old; [done|]. intros _. apply replace_from_absent.
Qed.

(** The ordinary case of [os.path.join]: a directory without a trailing
    slash and a relative name. *)
Lemma os_path_join_relative a b :
  a <> "" -> endswith "/" a = false -> String.prefix "/" b = false ->
  os_path_join a b = a +:+ "/" +:+ b.
Proof.
  intros Ha He Hb. unfold os_path_join. rewrite Hb, He.
  by destruct (String.eqb_spec a "").
Qed.

(** ** The subtraction of the script *)

Lemma float_of_int_ok n :
  (- 2 ^ 64 < n < 2 ^ 64)%Z -> ∃ x, float_of_int n = Ok x.
Proof.
  intros Hn. unfold float_of_int.
  pose proof (binary_normalize_int64_finite n Hn) as Hfin.
  destruct (binary_normalize prec emax n 0 false) as [| s | |]; eauto.
  by destruct (Hfin s).
Qed.

(** On numeric cells [end - start] never raises. *)
Lemma py_sub_numeric e s :
  is_numeric e = true -> is_numeric s = true -> ∃ d, py_sub e s = Ok d.
Proof.
  destruct e as [|m|x|], s as [|n|y|]; try discriminate; cbn -[Z.pow];
    intros He Hs; eauto.
  - destruct (float_of_int_ok m) as [x ->]; [lia|]. simpl. eauto.
  - destruct (float_of_int_ok n) as [y ->]; [lia|]. simpl. eauto.
Qed.

Lemma SFltb_zero_compare f :
  SFltb f (S754_zero false) = true -> Z_compare_SF 0 f = Some Gt.
Proof.
  destruct f as [s|s| |s m e]; try destruct s; try discriminate; intros _;
    try reflexivity.
  cbn [Z_compare_SF cond_Zopp]. f_equal.
  destruct (0 <=? e)%Z eqn:He; [|reflexivity].
  apply Z.leb_le in He. apply Z.compare_gt_iff.
  assert (0 < 2 ^ e)%Z by (apply Z.pow_pos_nonneg; lia). lia.
Qed.

(** Between two integers or two floats, [end < start] makes [end - start]
    negative. *)
Lemma py_sub_negative e s d :
  same_kind e s = true -> num_lt e s = true -> py_sub e s = Ok d ->
  num_lt d (PInt 0) = true.
Proof.
  destruct e as [|m|x|], s as [|n|y|]; try discriminate; intros _; cbn.
  - intros Hlt%Z.ltb_lt [= <-]. cbn. apply Z.ltb_lt. lia.
  - intros Hlt%float_sub_lt_zero [= <-]. cbn.
    rewrite ltb_spec in Hlt. change (Prim2SF 0) with (S754_zero false) in Hlt.
    by rewrite (SFltb_zero_compare _ Hlt).
Qed.

(** Doubles in order give a negative difference. *)
Lemma float_lt_sub_negative (x y : float) :
  SFltb (Prim2SF x) (Prim2SF y) = true -> num_lt (PFloat (x - y)) (PInt 0) = true.
Proof.
  rewrite <- ltb_spec. intros Hlt%float_sub_lt_zero. cbn.
  rewrite ltb_spec in Hlt. change (Prim2SF 0) with (S754_zero false) in Hlt.
  by rewrite (SFltb_zero_compare _ Hlt).
Qed.

(** On numeric cells with [end < start], [end - start] is negative or [0.0],
    and negative when no integer is rounded. *)
Lemma py_sub_backwards e s d :
  is_numeric e = true -> is_numeric s = true ->
  num_lt e s = true -> py_sub e s = Ok d ->
  (no_rounding e s = true -> num_lt d (PInt 0) = true) ∧
  (num_lt d (PInt 0) = true ∨ d = PFloat 0).
Proof.
  intros He Hs Hlt Hd.
  destruct e as [|m|x|], s as [|n|y|]; try discriminate.
  - assert (num_lt d (PInt 0) = true) by (by apply (py_sub_negative (PInt m) (PInt n))).
    auto.
  - cbn -[Z.pow] in He. unfold py_sub in Hd. cbn [as_num] in Hd.
    destruct (float_of_int m) as [x|] eqn:Hx; [|done]. injection Hd as <-.
    destruct (float_of_int_order m x (Prim2SF y)) as (Hbelow & _ & Hexact);
      [lia|done|apply Prim2SF_valid|].
    unfold num_lt in Hlt. cbn [as_num] in Hlt. destruct (Z_compare_SF m (Prim2SF y)) as [[]|] eqn:Hc; try done.
    split.
    + cbn -[Z.pow num_lt]. intros Hm%Z.leb_le. apply float_lt_sub_negative.
      unfold SFltb. by rewrite (Hexact Hm).
    + destruct (Hbelow eq_refl) as [Hb|(sg & mt & ex & Hx' & Hy')].
      * left. by apply float_lt_sub_negative.
      * right. f_equal. by apply (float_sub_diag x y sg mt ex).
  - cbn -[Z.pow] in Hs. unfold py_sub in Hd. cbn [as_num] in Hd.
    destruct (float_of_int n) as [y|] eqn:Hy; [|done]. injection Hd as <-.
    destruct (float_of_int_order n y (Prim2SF x)) as (_ & Habove & Hexact);
      [lia|done|apply Prim2SF_valid|].
    unfold num_lt in Hlt. cbn [as_num] in Hlt. destruct (Z_compare_SF n (Prim2SF x)) as [[]|] eqn:Hc; try done.
    split.
    + cbn -[Z.pow num_lt]. intros Hn%Z.leb_le. apply float_lt_sub_negative.
      unfold SFltb. by rewrite (SFcompare_antisym (Prim2SF y) (Prim2SF x)), (Hexact Hn).
    + destruct (Habove eq_refl) as [Hb|(sg & mt & ex & Hy' & Hx')].
      * left. by apply float_lt_sub_negative.
      * right. f_equal. by apply (float_sub_diag x y sg mt ex).
  - assert (num_lt d (PInt 0) = true) by (by apply (py_sub_negative (PFloat x) (PFloat y))).
    auto.
Qed.

(** ** The document of a row *)

Lemma input_record_fields row :
  input_record row = true ->
  ∃ name cls s e,
    row !! "slice_file_name" = Some (PStr name) ∧ row !! "class" = Some (PStr cls) ∧
    row !! "start" = Some s ∧ row !! "end" = Some e ∧
    is_numeric s = true ∧ is_numeric e = true.
Proof.
  unfold input_record.
  destruct (row !! "slice_file_name") as [[name| | |]|]; try discriminate;
    destruct (row !! "class") as [[cls| | |]|]; try discriminate;
    destruct (row !! "start") as [s|]; try discriminate;
    destruct (row !! "end") as [e|]; try discriminate.
  simpl. intros [Hs He]%andb_prop. by exists name, cls, s, e.
Qed.

Lemma create_snippet_jam_ok row name cls s e d :
  row !! "slice_file_name" = Some name -> row !! "class" = Some cls ->
  row !! "start" = Some s -> row !! "end" = Some e ->
  py_sub e s = Ok d ->
  create_snippet_jam row = Ok (snippet row name cls d).
Proof.
  intros Hn Hc Hs He Hd.
  unfold create_snippet_jam, fill_file_metadata, getitem.
  rewrite Hn, Hc, Hs, He. simpl. rewrite Hd. simpl.
  reflexivity.
Qed.

(** Conversely, a document comes from four cells and a subtraction that
    succeeded. *)
Lemma create_snippet_jam_inv row jam :
  create_snippet_jam row = Ok jam ->
  ∃ name cls s e d,
    row !! "slice_file_name" = Some name ∧ row !! "class" = Some cls ∧
    row !! "start" = Some s ∧ row !! "end" = Some e ∧
    py_sub e s = Ok d ∧ jam = snippet row name cls d.
Proof.
  unfold create_snippet_jam, fill_file_metadata, getitem.
  destruct (row !! "end") as [e|]; [|done].
  destruct (row !! "start") as [s|]; [|done]. simpl.
  destruct (py_sub e s) as [d|] eqn:Hd; [|done]. simpl.
  destruct (row !! "class") as [cls|]; [|done]. simpl.
  destruct (row !! "slice_file_name") as [name|]; [|done]. simpl.
  intros [= <-]. by exists name, cls, s, e, d.
Qed.

(** A [start] or [end] that is text stops the mapper with a [TypeError]. *)
Lemma create_snippet_jam_text_span row s e :
  row !! "start" = Some s -> row !! "end" = Some e ->
  is_str s || is_str e = true ->
  create_snippet_jam row = Raise TypeError.
Proof.
  intros Hs He Hstr. unfold create_snippet_jam, getitem. rewrite Hs, He. simpl.
  assert (py_sub e s = Raise TypeError) as ->; [|done].
  unfold py_sub. destruct e, s; try done; simpl; by destruct (as_num _) as [[]|].
Qed.

(** An Input Record always has a document. *)
Lemma create_snippet_jam_input_record row :
  input_record row = true ->
  ∃ name cls s e d,
    row !! "slice_file_name" = Some (PStr name) ∧ row !! "class" = Some (PStr cls) ∧
    row !! "start" = Some s ∧ row !! "end" = Some e ∧ py_sub e s = Ok d ∧
    create_snippet_jam row = Ok (snippet row (PStr name) (PStr cls) d).
Proof.
  intros (name & cls & s & e & Hn & Hc & Hs & He & Hns & Hne)%input_record_fields.
  destruct (py_sub_numeric e s Hne Hns) as [d Hd].
  exists name, cls, s, e, d. eauto 10 using create_snippet_jam_ok.
Qed.

Lemma out_file_str out_dir row name :
  row !! "slice_file_name" = Some (PStr name) ->
  out_file out_dir row = Ok (os_path_join out_dir (str_replace ".wav" ".jams" name)).
Proof. intros Hn. unfold out_file, getitem. by rewrite Hn. Qed.

(** ** The batch loop *)

Section BatchFacts.

Variable save_error : string -> JAMS.t -> option exn.
Variable out_dir : string.

Local Abbreviation run_row := (process_row save_error out_dir).
Local Abbreviation run_rows := (for_rows save_error out_dir).

(** A row that is processed writes its document to its file, and only
    that. *)
Lemma process_row_Ok row fs fs' u :
  run_row row fs = (fs', Ok u) ->
  ∃ jam path,
    create_snippet_jam row = Ok jam ∧ out_file out_dir row = Ok path ∧
    save_error path jam = None ∧ fs' = <[path := jam]> fs.
Proof.
  unfold process_row, JAMS_save.
  destruct (create_snippet_jam row) as [jam|]; [|done].
  destruct (out_file out_dir row) as [path|]; [|done].
  destruct (save_error path jam) eqn:Hsave; [done|].
  intros [= <-]. by exists jam, path.
Qed.

(** A row that fails leaves the files as they were. *)
Lemma process_row_Raise row fs fs' e :
  run_row row fs = (fs', Raise e) -> fs' = fs.
Proof.
  unfold process_row, JAMS_save.
  destruct (create_snippet_jam row) as [jam|]; [|congruence].
  destruct (out_file out_dir row) as [path|]; [|congruence].
  destruct (save_error path jam); congruence.
Qed.

(** The loop goes through the rows in order: a table in two parts is the
    first part, then the second from the files the first left. *)
Lemma for_rows_app pre post fs :
  run_rows (pre ++ post) fs =
  match run_rows pre fs with
  | (fs', Ok _) => run_rows post fs'
  | (fs', Raise e) => (fs', Raise e)
  end.
Proof.
  revert fs; induction pre as [|row pre IH]; intros fs; [done|].
  cbn.
  destruct (run_row row fs) as [fs1 [[]|e]]; [apply IH|done].
Qed.

(** Files the loop does not name keep their content. *)
Lemma for_rows_other rows fs fs' res path :
  run_rows rows fs = (fs', res) ->
  (∀ row, row ∈ rows -> out_file out_dir row ≠ Ok path) ->
  fs' !! path = fs !! path.
Proof.
  revert fs; induction rows as [|row rows IH]; intros fs; cbn; [by intros [= <-]|].
  intros Hrun Hother.
  destruct (run_row row fs) as [fs1 [u|e]] eqn:Hrow.
  - apply process_row_Ok in Hrow as (jam & p & _ & Hp & _ & ->).
    rewrite (IH _ Hrun) by (intros; apply Hother; by right).
    apply lookup_insert_ne. intros ->. by apply (Hother row); [left|].
  - injection Hrun as <- _. by rewrite (process_row_Raise _ _ _ _ Hrow).
Qed.

(** No file disappears during the loop. *)
Lemma for_rows_keeps rows fs fs' res path :
  run_rows rows fs = (fs', res) -> is_Some (fs !! path) -> is_Some (fs' !! path).
Proof.
  revert fs; induction rows as [|row rows IH]; intros fs; cbn; [by intros [= <-]|].
  intros Hrun Hin.
  destruct (run_row row fs) as [fs1 [u|e]] eqn:Hrow.
  - apply process_row_Ok in Hrow as (jam & p & _ & Hp & _ & ->).
    apply (IH _ Hrun). rewrite lookup_insert. case_decide; eauto.
  - injection Hrun as <- _. by rewrite (process_row_Raise _ _ _ _ Hrow).
Qed.

(** After a loop that went through, every row has its file; the file holds
    the row's document unless a later row has the same file name. *)
Lemma for_rows_written rows fs fs' u i row :
  run_rows rows fs = (fs', Ok u) -> rows !! i = Some row ->
  ∃ jam path,
    create_snippet_jam row = Ok jam ∧ out_file out_dir row = Ok path ∧
    is_Some (fs' !! path) ∧
    ((∀ j row', (i < j)%nat -> rows !! j = Some row' ->
                out_file out_dir row' ≠ Ok path) ->
     fs' !! path = Some jam).
Proof.
  revert fs i; induction rows as [|r rows IH]; intros fs i; [done|].
  cbn.
  destruct (run_row r fs) as [fs1 [v|e]] eqn:Hrow; [|done].
  intros Hrun Hi. destruct i as [|i].
  - injection Hi as ->.
    apply process_row_Ok in Hrow as (jam & path & Hjam & Hpath & _ & ->).
    exists jam, path. split_and!; [done|done| |].
    + apply (for_rows_keeps _ _ _ _ _ Hrun). rewrite lookup_insert_eq. eauto.
    + intros Hlast. rewrite (for_rows_other _ _ _ _ _ Hrun).
      * apply lookup_insert_eq.
      * intros row' [j Hj]%list_elem_of_lookup.
        apply (Hlast (S j)); [lia|done].
  - destruct (IH _ _ Hrun Hi) as (jam & path & Hjam & Hpath & Hin & Hlast).
    exists jam, path. split_and!; [done|done|done|].
    intros Hlater. apply Hlast. intros j row' Hj. apply (Hlater (S j)). lia.
Qed.

(** A run that ends in an error stopped at some row [k]: the rows before it
    went through, and row [k] raised the error. *)
Lemma for_rows_Raise rows fs fs' e :
  run_rows rows fs = (fs', Raise e) ->
  ∃ k row,
    rows !! k = Some row ∧ run_rows (take k rows) fs = (fs', Ok tt) ∧
    run_row row fs' = (fs', Raise e).
Proof.
  revert fs; induction rows as [|r rows IH]; intros fs; [done|].
  cbn. destruct (run_row r fs) as [fs1 [[]|e1]] eqn:Hrow.
  - intros (k & row & Hk & Hpre & Hfail)%IH.
    exists (S k), row. cbn. by rewrite Hrow.
  - intros [= <- <-]. exists 0%nat, r.
    pose proof (process_row_Raise _ _ _ _ Hrow) as ->. done.
Qed.

End BatchFacts.

(** ** The properties of the specification *)

(** C1: for every input record with numeric [start] and [end], the duration
    of the file metadata, the duration of the single event and the duration
    of the annotation itself are all the value of [end - start], hence equal
    to each other. *)
Theorem create_snippet_jam_durations row :
  input_record row = true ->
  ∃ jam ann obs e s d,
    create_snippet_jam row = Ok jam ∧
    JAMS.annotations jam = [ann] ∧ Annotation.data ann = [obs] ∧
    row !! "end" = Some e ∧ row !! "start" = Some s ∧ py_sub e s = Ok d ∧
    FileMetadata.duration (JAMS.file_metadata jam) = Some d ∧
    Observation.duration obs = d ∧
    Annotation.duration ann = Some d.
Proof.
  intros (name & cls & s & e & d & _ & _ & Hs & He & Hd & ->)%create_snippet_jam_input_record.
  eexists _, _, _, e, s, d. split_and!; done.
Qed.

Lemma create_snippet_jam_durations_dog_bark :
  input_record dog_bark = true ∧
  ∃ jam ann obs e s d,
    create_snippet_jam dog_bark = Ok jam ∧
    JAMS.annotations jam = [ann] ∧ Annotation.data ann = [obs] ∧
    dog_bark !! "end" = Some e ∧ dog_bark !! "start" = Some s ∧ py_sub e s = Ok d ∧
    FileMetadata.duration (JAMS.file_metadata jam) = Some d ∧
    Observation.duration obs = d ∧
    Annotation.duration ann = Some d.
Proof.
  split; [vm_compute; reflexivity|].
  apply (create_snippet_jam_durations dog_bark). vm_compute; reflexivity.
Defined.

(** C3: every column of an input record, also one that is not otherwise used
    such as [fold] or [classID], is in the sandbox that
    [fill_annotation_metadata] fills, with the value it has in the record. *)
Theorem sandbox_holds_every_column row :
  input_record row = true ->
  ∃ jam ann,
    create_snippet_jam row = Ok jam ∧ JAMS.annotations jam = [ann] ∧
    ∀ column v, row !! column = Some v -> Annotation.sandbox ann !! column = Some v.
Proof.
  intros (name & cls & s & e & d & _ & _ & _ & _ & _ & ->)%create_snippet_jam_input_record.
  eexists _, _. split_and!; [done|done|].
  intros column v Hv. cbn. unfold Sandbox_update.
  by rewrite (right_id_L ∅ (∪)).
Qed.

Lemma sandbox_holds_every_column_dog_bark :
  input_record dog_bark = true ∧
  ∃ jam ann,
    create_snippet_jam dog_bark = Ok jam ∧ JAMS.annotations jam = [ann] ∧
    ∀ column v, dog_bark !! column = Some v ->
                Annotation.sandbox ann !! column = Some v.
Proof.
  split; [vm_compute; reflexivity|].
  apply (sandbox_holds_every_column dog_bark). vm_compute; reflexivity.
Defined.

(** C4: for every input record the single event of the annotation has time
    [0] and confidence [1.0], and its value is the record's [class]. *)
Theorem event_time_confidence_value row :
  input_record row = true ->
  ∃ jam ann obs cls,
    create_snippet_jam row = Ok jam ∧
    JAMS.annotations jam = [ann] ∧ Annotation.data ann = [obs] ∧
    Observation.time obs = PInt 0 ∧
    Observation.confidence obs = PFloat 1 ∧
    row !! "class" = Some cls ∧ Observation.value obs = cls.
Proof.
  intros (name & cls & s & e & d & _ & Hc & _ & _ & _ & ->)%create_snippet_jam_input_record.
  eexists _, _, _, (PStr cls). split_and!; done.
Qed.

Lemma event_time_confidence_value_dog_bark :
  input_record dog_bark = true ∧
  ∃ jam ann obs cls,
    create_snippet_jam dog_bark = Ok jam ∧
    JAMS.annotations jam = [ann] ∧ Annotation.data ann = [obs] ∧
    Observation.time obs = PInt 0 ∧
    Observation.confidence obs = PFloat 1 ∧
    dog_bark !! "class" = Some cls ∧ Observation.value obs = cls.
Proof.
  split; [vm_compute; reflexivity|].
  apply (event_time_confidence_value dog_bark). vm_compute; reflexivity.
Defined.

(** C5: for every input record the file metadata has the record's
    [slice_file_name] as title, release ["1.0"] and artist
    ["UrbanSound8K"]. *)
Theorem file_metadata_title_release_artist row :
  input_record row = true ->
  ∃ jam name,
    create_snippet_jam row = Ok jam ∧
    row !! "slice_file_name" = Some name ∧
    FileMetadata.title (JAMS.file_metadata jam) = name ∧
    FileMetadata.release (JAMS.file_metadata jam) = "1.0" ∧
    FileMetadata.artist (JAMS.file_metadata jam) = "UrbanSound8K".
Proof.
  intros (name & cls & s & e & d & Hn & _ & _ & _ & _ & ->)%create_snippet_jam_input_record.
  eexists _, (PStr name). split_and!; done.
Qed.

Lemma file_metadata_title_release_artist_dog_bark :
  input_record dog_bark = true ∧
  ∃ jam name,
    create_snippet_jam dog_bark = Ok jam ∧
    dog_bark !! "slice_file_name" = Some name ∧
    FileMetadata.title (JAMS.file_metadata jam) = name ∧
    FileMetadata.release (JAMS.file_metadata jam) = "1.0" ∧
    FileMetadata.artist (JAMS.file_metadata jam) = "UrbanSound8K".
Proof.
  split; [vm_compute; reflexivity|].
  apply (file_metadata_title_release_artist dog_bark). vm_compute; reflexivity.
Defined.

(** C6: for every input record [create_snippet_jam] gives a document with
    exactly one annotation, of namespace ['tag_open'], holding exactly one
    event; and the record yields one output file: when the save goes through,
    the files after the row are the files before it with that one document
    stored under the row's file name. *)
Theorem one_record_one_document_one_file save_error out_dir row :
  input_record row = true ->
  ∃ jam ann obs path,
    create_snippet_jam row = Ok jam ∧
    JAMS.annotations jam = [ann] ∧
    Annotation.namespace ann = "tag_open" ∧
    Annotation.data ann = [obs] ∧
    out_file out_dir row = Ok path ∧
    ∀ fs, save_error path jam = None ->
          process_row save_error out_dir row fs = (<[path := jam]> fs, Ok tt).
Proof.
  intros (name & cls & s & e & d & Hn & _ & _ & _ & _ & Hjam)%create_snippet_jam_input_record.
  pose proof (out_file_str out_dir row name Hn) as Hpath.
  eexists _, _, _, _. split_and!; [done|done|done|done|done|].
  intros fs Hsave. unfold process_row, JAMS_save. by rewrite Hjam, Hpath, Hsave.
Qed.

Lemma one_record_one_document_one_file_dog_bark :
  input_record dog_bark = true ∧
  ∃ jam ann obs path,
    create_snippet_jam dog_bark = Ok jam ∧
    JAMS.annotations jam = [ann] ∧
    Annotation.namespace ann = "tag_open" ∧
    Annotation.data ann = [obs] ∧
    out_file "UrbanSound8K_jams" dog_bark = Ok path ∧
    ∀ fs, always_saves path jam = None ->
          process_row always_saves "UrbanSound8K_jams" dog_bark fs
          = (<[path := jam]> fs, Ok tt).
Proof.
  split; [vm_compute; reflexivity|].
  apply (one_record_one_document_one_file always_saves "UrbanSound8K_jams" dog_bark).
  vm_compute; reflexivity.
Defined.

(** C7, as amended: for every input record with [end < start] the mapper
    raises no error and gives a document whose three durations are the value
    of [end - start]; nothing checks [end >= start].  That value is never
    positive: it is negative or [0.0].  It is negative whenever no integer is
    rounded by the subtraction, that is when [start] and [end] are both
    integers, both floats, or an integer of at most [2^53] in absolute value
    next to a float.  (Beyond [2^53] Python rounds the integer to the float
    nearest to it, which can be the other operand.) *)
Theorem backwards_span_propagates row e s :
  input_record row = true ->
  row !! "end" = Some e -> row !! "start" = Some s ->
  num_lt e s = true ->
  ∃ jam ann obs d,
    create_snippet_jam row = Ok jam ∧
    JAMS.annotations jam = [ann] ∧ Annotation.data ann = [obs] ∧
    py_sub e s = Ok d ∧
    FileMetadata.duration (JAMS.file_metadata jam) = Some d ∧
    Observation.duration obs = d ∧
    Annotation.duration ann = Some d ∧
    (no_rounding e s = true -> num_lt d (PInt 0) = true) ∧
    (num_lt d (PInt 0) = true ∨ d = PFloat 0).
Proof.
  intros Hrow.
  destruct (input_record_fields row Hrow)
    as (name & cls & s' & e' & Hn & Hc & Hs & He & Hns & Hne).
  rewrite Hs, He. intros [= <-] [= <-] Hlt.
  destruct (py_sub_numeric e' s' Hne Hns) as [d Hd].
  rewrite (create_snippet_jam_ok row _ _ _ _ _ Hn Hc Hs He Hd).
  destruct (py_sub_backwards e' s' d Hne Hns Hlt Hd) as [Hneg Hnonpos].
  eexists _, _, _, d. split_and!; done.
Qed.

Lemma backwards_span_propagates_int_end :
  (input_record backwards_int_end = true ∧
   backwards_int_end !! "end" = Some (PInt 1) ∧
   backwards_int_end !! "start" = Some (PFloat 4) ∧
   num_lt (PInt 1) (PFloat 4) = true) ∧
  ∃ jam ann obs d,
    create_snippet_jam backwards_int_end = Ok jam ∧
    JAMS.annotations jam = [ann] ∧ Annotation.data ann = [obs] ∧
    py_sub (PInt 1) (PFloat 4) = Ok d ∧
    FileMetadata.duration (JAMS.file_metadata jam) = Some d ∧
    Observation.duration obs = d ∧
    Annotation.duration ann = Some d ∧
    (no_rounding (PInt 1) (PFloat 4) = true -> num_lt d (PInt 0) = true) ∧
    (num_lt d (PInt 0) = true ∨ d = PFloat 0).
Proof.
  split; [split_and!; vm_compute; reflexivity|].
  apply (backwards_span_propagates backwards_int_end (PInt 1) (PFloat 4));
    vm_compute; reflexivity.
Defined.

(** C7, as stated, fails on an integer [end] and a float [start] beyond
    [2^53]: [end < start], yet [end - start] is [0.0], which is not
    negative. *)
Lemma backwards_span_can_round_to_zero :
  input_record beyond_2_53 = true ∧
  beyond_2_53 !! "end" = Some (PInt 9007199254740995) ∧
  beyond_2_53 !! "start" = Some (PFloat 9007199254740996) ∧
  num_lt (PInt 9007199254740995) (PFloat 9007199254740996) = true ∧
  ¬ ∃ jam d,
      create_snippet_jam beyond_2_53 = Ok jam ∧
      FileMetadata.duration (JAMS.file_metadata jam) = Some d ∧
      num_lt d (PInt 0) = true.
Proof.
  split_and!; try (vm_compute; reflexivity).
  intros (jam & d & Hjam & Hd & Hneg).
  assert (Hrun : create_snippet_jam beyond_2_53
                 = Ok (snippet beyond_2_53 (PStr "24074-1-0-0.wav")
                         (PStr "car_horn") (PFloat 0))).
  { apply (create_snippet_jam_ok _ _ _ (PFloat 9007199254740996)
             (PInt 9007199254740995)); vm_compute; reflexivity. }
  rewrite Hrun in Hjam. injection Hjam as <-.
  cbn in Hd. injection Hd as <-. vm_compute in Hneg. discriminate.
Qed.

(** C8: when the table is read and row [k] is the first that fails, in the
    mapping or in the save, the run ends with that row's error.  The files
    are then the ones left by rows [0..k-1], processed in table order: each
    of these rows has its file, holding its document unless a later row
    among them has the same file name; row [k] changes no file; and whatever
    follows row [k] in the table is without effect. *)
Theorem process_metadata_stops_at_first_failure
    read_csv save_error metadata_file out_dir rows k row e fs fs_k fs_k' :
  read_csv metadata_file = Ok rows ->
  rows !! k = Some row ->
  for_rows save_error out_dir (take k rows) fs = (fs_k, Ok tt) ->
  process_row save_error out_dir row fs_k = (fs_k', Raise e) ->
  process_metadata read_csv save_error metadata_file out_dir fs = (fs_k, Raise e) ∧
  fs_k' = fs_k ∧
  (∀ i r, (i < k)%nat -> rows !! i = Some r ->
     ∃ jam path,
       create_snippet_jam r = Ok jam ∧ out_file out_dir r = Ok path ∧
       is_Some (fs_k !! path) ∧
       ((∀ j r', (i < j < k)%nat -> rows !! j = Some r' ->
                 out_file out_dir r' ≠ Ok path) ->
        fs_k !! path = Some jam)) ∧
  (∀ later,
     for_rows save_error out_dir (take k rows ++ row :: later) fs = (fs_k, Raise e)).
Proof.
  intros Hread Hk Hpre Hrow.
  pose proof (process_row_Raise _ _ _ _ _ _ Hrow) as ->.
  assert (Hstop : ∀ later,
             for_rows save_error out_dir (take k rows ++ row :: later) fs
             = (fs_k, Raise e)).
  { intros later. rewrite for_rows_app, Hpre. cbn. by rewrite Hrow. }
  split_and!; [|done| |done].
  - unfold process_metadata. rewrite Hread.
    rewrite <- (take_drop_middle rows k row Hk). apply Hstop.
  - intros i r Hi Hr.
    destruct (for_rows_written _ _ _ _ _ _ i r Hpre) as (jam & path & ? & ? & ? & Hlast).
    { by rewrite lookup_take_lt. }
    exists jam, path. split_and!; try done.
    intros Hlater. apply Hlast.
    intros j r' Hj [Hr' Hjk]%lookup_take_Some. by apply (Hlater j r').
Qed.

Lemma process_metadata_stops_at_first_failure_three_rows :
  (read_three_rows "UrbanSound8K.csv" = Ok three_rows ∧
   three_rows !! 1%nat = Some malformed ∧
   for_rows always_saves "out" (take 1 three_rows) ∅ = (after_dog_bark, Ok tt) ∧
   process_row always_saves "out" malformed after_dog_bark
   = (after_dog_bark, Raise TypeError)) ∧
  process_metadata read_three_rows always_saves "UrbanSound8K.csv" "out" ∅
  = (after_dog_bark, Raise TypeError) ∧
  after_dog_bark = after_dog_bark ∧
  (∀ i r, (i < 1)%nat -> three_rows !! i = Some r ->
     ∃ jam path,
       create_snippet_jam r = Ok jam ∧ out_file "out" r = Ok path ∧
       is_Some (after_dog_bark !! path) ∧
       ((∀ j r', (i < j < 1)%nat -> three_rows !! j = Some r' ->
                 out_file "out" r' ≠ Ok path) ->
        after_dog_bark !! path = Some jam)) ∧
  (∀ later,
     for_rows always_saves "out" (take 1 three_rows ++ malformed :: later) ∅
     = (after_dog_bark, Raise TypeError)).
Proof.
  split; [split_and!; vm_compute; reflexivity|].
  apply (process_metadata_stops_at_first_failure
           read_three_rows always_saves "UrbanSound8K.csv" "out" three_rows 1
           malformed TypeError ∅ after_dog_bark after_dog_bark);
    vm_compute; reflexivity.
Defined.

(** C2, as amended: for a record whose [slice_file_name] ends in [.wav], the
    output file name is the name with every occurrence of [.wav] replaced by
    [.jams], the trailing one and any earlier one, joined to the output
    directory by [os.path.join]; when [.wav] occurs nowhere before the
    suffix, it is the name with the suffix replaced and nothing else
    changed. *)
Theorem out_file_replaces_every_wav out_dir row stem :
  row !! "slice_file_name" = Some (PStr (stem +:+ ".wav")) ->
  out_file out_dir row
  = Ok (os_path_join out_dir (str_replace ".wav" ".jams" stem +:+ ".jams")) ∧
  (occurs ".wav" stem = false ->
   out_file out_dir row = Ok (os_path_join out_dir (stem +:+ ".jams"))).
Proof.
  intros Hn. rewrite (out_file_str out_dir row _ Hn).
  change (str_replace ".wav" ".jams") with (replace_from ".wav" ".jams").
  rewrite replace_from_wav_suffix. split; [done|].
  intros Hstem. by rewrite replace_from_absent.
Qed.

Lemma out_file_replaces_every_wav_dog_bark :
  dog_bark !! "slice_file_name" = Some (PStr ("100032-3-0-0" +:+ ".wav")) ∧
  out_file "UrbanSound8K_jams" dog_bark
  = Ok (os_path_join "UrbanSound8K_jams"
          (str_replace ".wav" ".jams" "100032-3-0-0" +:+ ".jams")) ∧
  (occurs ".wav" "100032-3-0-0" = false ->
   out_file "UrbanSound8K_jams" dog_bark
   = Ok (os_path_join "UrbanSound8K_jams" ("100032-3-0-0" +:+ ".jams"))).
Proof.
  split; [vm_compute; reflexivity|].
  apply (out_file_replaces_every_wav "UrbanSound8K_jams" dog_bark "100032-3-0-0").
  vm_compute; reflexivity.
Defined.

(** C2, as stated, fails on a name in which [.wav] occurs before the suffix
    too: the earlier occurrence is replaced as well. *)
Lemma out_file_changes_inner_wav :
  twice_wav !! "slice_file_name" = Some (PStr ("siren.wav" +:+ ".wav")) ∧
  out_file "UrbanSound8K_jams" twice_wav = Ok "UrbanSound8K_jams/siren.jams.jams" ∧
  out_file "UrbanSound8K_jams" twice_wav
  ≠ Ok (os_path_join "UrbanSound8K_jams" ("siren.wav" +:+ ".jams")).
Proof.
  split_and!; [vm_compute; reflexivity..|].
  vm_compute. discriminate.
Qed.

(** C10: for a record whose [slice_file_name] contains no [.wav], the output
    file name is the name unchanged, without a [.jams] extension, joined to
    the output directory. *)
Theorem out_file_without_wav out_dir row name :
  row !! "slice_file_name" = Some (PStr name) ->
  occurs ".wav" name = false ->
  out_file out_dir row = Ok (os_path_join out_dir name).
Proof.
  intros Hn Hname. rewrite (out_file_str out_dir row name Hn).
  by rewrite str_replace_absent.
Qed.

Lemma out_file_without_wav_flac_clip :
  (flac_clip !! "slice_file_name" = Some (PStr "100263-2-0-117.flac") ∧
   occurs ".wav" "100263-2-0-117.flac" = false) ∧
  out_file "UrbanSound8K_jams" flac_clip
  = Ok (os_path_join "UrbanSound8K_jams" "100263-2-0-117.flac").
Proof.
  split; [split; vm_compute; reflexivity|].
  apply (out_file_without_wav "UrbanSound8K_jams" flac_clip "100263-2-0-117.flac");
    vm_compute; reflexivity.
Defined.


(** ** Further properties of the script *)

(** *** File names *)

Section FileNames.

Lemma replace_from_wav_head s :
  str_head (replace_from ".wav" ".jams" s) = str_head s.
Proof.
  destruct s as [|c s]; [reflexivity|].
  destruct (String.prefix ".wav" (String c s)) eqn:Hp.
  - rewrite replace_from_cons_true by done.
    cbn -[ascii_dec] in Hp. by destruct (ascii_dec "." c) as [<-|].
  - by rewrite replace_from_cons_false.
Qed.

Lemma prefix_empty s : String.prefix "" s = true.
Proof. by destruct s. Qed.

(** A pattern without a dot is found at the head of the replaced text
    exactly when it is at the head of the text. *)
Lemma prefix_replace_step a p :
  a <> "."%char ->
  (∀ s, String.prefix p (replace_from ".wav" ".jams" s) = String.prefix p s) ->
  ∀ s, String.prefix (String a p) (replace_from ".wav" ".jams" s)
       = String.prefix (String a p) s.
Proof.
  intros Ha IH [|c s]; [reflexivity|].
  destruct (String.prefix ".wav" (String c s)) eqn:Hp.
  - rewrite replace_from_cons_true by done.
    cbn -[ascii_dec] in Hp. destruct (ascii_dec "." c) as [<-|]; [|done].
    cbv [String.append]. cbn -[ascii_dec replace_from]. by destruct (ascii_dec a ".").
  - rewrite replace_from_cons_false by done. cbn -[ascii_dec replace_from].
    destruct (ascii_dec a c); [apply IH|done].
Qed.

Lemma prefix_wav_tail_replace s :
  String.prefix "wav" (replace_from ".wav" ".jams" s) = String.prefix "wav" s.
Proof.
  revert s. do 3 (apply prefix_replace_step; [done|]).
  intros s. by rewrite !prefix_empty.
Qed.

(** After the replacement no [.wav] is left. *)
Lemma replace_from_wav_clean s :
  occurs ".wav" (replace_from ".wav" ".jams" s) = false.
Proof.
  remember (String.length s) as n eqn:Hn. revert s Hn.
  induction n as [n IH] using lt_wf_ind. intros [|c s] Hn; [reflexivity|].
  destruct (String.prefix ".wav" (String c s)) eqn:Hp.
  - rewrite replace_from_cons_true by done.
    cbv [String.append]. cbn -[replace_from str_drop].
    apply (IH (String.length (str_drop 3 s))); [|done].
    pose proof (str_drop_length 3 s). subst n.
    change (String.length (String c s)) with (S (String.length s)). lia.
  - rewrite replace_from_cons_false by done. cbn [occurs].
    rewrite (IH (String.length s)) by (subst n; simpl; lia || done).
    rewrite orb_false_r. cbn -[ascii_dec replace_from] in Hp |- *.
    destruct (ascii_dec "." c); [|done].
    by rewrite prefix_wav_tail_replace.
Qed.

(** The replacement runs through a concatenation when the second part does
    not begin with one of the letters of [wav]: no occurrence then lies
    across the joint. *)
Lemma wav_prefix_app_tail c s t :
  (∀ a, str_head t = Some a -> a <> "w"%char ∧ a <> "a"%char ∧ a <> "v"%char) ->
  String.prefix ".wav" (String c s +:+ t) = String.prefix ".wav" (String c s).
Proof.
  intros Ht. destruct t as [|a t].
  { by destruct s as [|c1 [|c2 [|c3 s]]]; cbv [String.append]; cbn -[ascii_dec];
      repeat (destruct (ascii_dec _ _) as [<-|?]; try done); destruct s. }
  destruct (Ht a eq_refl) as (Hw & Ha & Hv).
  destruct s as [|c1 [|c2 [|c3 s]]]; cbv [String.append]; cbn -[ascii_dec];
    repeat (destruct (ascii_dec _ _) as [<-|?]; try done).
  all: by destruct s.
Qed.

Lemma replace_from_wav_app s t :
  (∀ a, str_head t = Some a -> a <> "w"%char ∧ a <> "a"%char ∧ a <> "v"%char) ->
  replace_from ".wav" ".jams" (s +:+ t) =
  replace_from ".wav" ".jams" s +:+ replace_from ".wav" ".jams" t.
Proof.
  intros Ht. remember (String.length s) as n eqn:Hn. revert s Hn.
  induction n as [n IH] using lt_wf_ind. intros [|c s] Hn; [reflexivity|].
  assert (Hjoint : String.prefix ".wav" (String c (s +:+ t))
                   = String.prefix ".wav" (String c s))
    by (by apply (wav_prefix_app_tail c s t)).
  change (String c s +:+ t) with (String c (s +:+ t)).
  destruct (String.prefix ".wav" (String c s)) eqn:Hp.
  - pose proof (prefix_length _ _ Hp) as Hlen. simpl in Hlen.
    rewrite (replace_from_cons_true _ _ _ _ Hjoint), (replace_from_cons_true _ _ _ _ Hp).
    change (String.length ".wav" - 1)%nat with 3%nat.
    rewrite str_drop_app by lia.
    rewrite (IH (String.length (str_drop 3 s))); [by rewrite append_assoc| |done].
    pose proof (str_drop_length 3 s). subst n.
    change (String.length (String c s)) with (S (String.length s)). lia.
  - rewrite (replace_from_cons_false _ _ _ _ Hjoint), (replace_from_cons_false _ _ _ _ Hp).
    rewrite (IH (String.length s)); [done|subst n; simpl; lia|done].
Qed.

(** The replacement keeps a leading slash, and adds none. *)
Lemma prefix_slash_replace s :
  String.prefix "/" (replace_from ".wav" ".jams" s) = String.prefix "/" s.
Proof.
  revert s. apply prefix_replace_step; [done|].
  intros s. by rewrite !prefix_empty.
Qed.

End FileNames.

(** X1: whatever the [slice_file_name], the file name derived from it holds
    no [.wav] any more, so deriving a name from a derived name changes
    nothing. *)
Theorem out_file_name_free_of_wav out_dir row name :
  row !! "slice_file_name" = Some (PStr name) ->
  ∃ base,
    out_file out_dir row = Ok (os_path_join out_dir base) ∧
    occurs ".wav" base = false ∧
    str_replace ".wav" ".jams" base = base.
Proof.
  intros Hn. exists (str_replace ".wav" ".jams" name).
  pose proof (replace_from_wav_clean name) as Hclean.
  split_and!; [by apply out_file_str|done|].
  by apply str_replace_absent.
Qed.

Lemma out_file_name_free_of_wav_twice_wav :
  twice_wav !! "slice_file_name" = Some (PStr "siren.wav.wav") ∧
  ∃ base,
    out_file "UrbanSound8K_jams" twice_wav
    = Ok (os_path_join "UrbanSound8K_jams" base) ∧
    occurs ".wav" base = false ∧
    str_replace ".wav" ".jams" base = base.
Proof.
  split; [vm_compute; reflexivity|].
  apply (out_file_name_free_of_wav "UrbanSound8K_jams" twice_wav "siren.wav.wav").
  vm_compute; reflexivity.
Defined.

(** X2: a [slice_file_name] that is an absolute path makes [os.path.join]
    drop the output directory: the file is written to the name itself, with
    its [.wav] replaced, wherever [out_dir] points. *)
Theorem out_file_absolute_name_ignores_out_dir out_dir row name :
  row !! "slice_file_name" = Some (PStr name) ->
  String.prefix "/" name = true ->
  out_file out_dir row = Ok (str_replace ".wav" ".jams" name).
Proof.
  intros Hn Habs. rewrite (out_file_str out_dir row name Hn).
  unfold os_path_join.
  change (str_replace ".wav" ".jams") with (replace_from ".wav" ".jams").
  by rewrite prefix_slash_replace, Habs.
Qed.

Lemma out_file_absolute_name_ignores_out_dir_fold5 :
  (absolute_name !! "slice_file_name" = Some (PStr "/data/fold5/100032-3-0-0.wav") ∧
   String.prefix "/" "/data/fold5/100032-3-0-0.wav" = true) ∧
  out_file "UrbanSound8K_jams" absolute_name
  = Ok (str_replace ".wav" ".jams" "/data/fold5/100032-3-0-0.wav").
Proof.
  split; [split; vm_compute; reflexivity|].
  apply (out_file_absolute_name_ignores_out_dir "UrbanSound8K_jams" absolute_name);
    vm_compute; reflexivity.
Defined.

(** X3: for a relative [slice_file_name] the path is the output directory,
    a slash unless the directory is empty or ends in one, and the name with
    its [.wav] replaced. *)
Theorem out_file_relative_name_under_out_dir out_dir row name :
  row !! "slice_file_name" = Some (PStr name) ->
  String.prefix "/" name = false ->
  out_file out_dir row
  = Ok (out_dir +:+
        (if String.eqb out_dir "" || endswith "/" out_dir then "" else "/") +:+
        str_replace ".wav" ".jams" name).
Proof.
  intros Hn Hrel. rewrite (out_file_str out_dir row name Hn).
  unfold os_path_join.
  change (str_replace ".wav" ".jams") with (replace_from ".wav" ".jams").
  rewrite prefix_slash_replace, Hrel.
  by destruct (String.eqb out_dir "" || endswith "/" out_dir).
Qed.

Lemma out_file_relative_name_under_out_dir_dog_bark :
  (dog_bark !! "slice_file_name" = Some (PStr "100032-3-0-0.wav") ∧
   String.prefix "/" "100032-3-0-0.wav" = false) ∧
  out_file "jams/" dog_bark
  = Ok ("jams/" +:+
        (if String.eqb "jams/" "" || endswith "/" "jams/" then "" else "/") +:+
        str_replace ".wav" ".jams" "100032-3-0-0.wav").
Proof.
  split; [split; vm_compute; reflexivity|].
  apply (out_file_relative_name_under_out_dir "jams/" dog_bark);
    vm_compute; reflexivity.
Defined.

(** X4: the derivation of file names is not one-to-one: a clip named
    [stem.wav] and a clip named [stem.jams] are sent to the same file. *)
Theorem out_file_wav_and_jams_names_collide out_dir r1 r2 stem :
  r1 !! "slice_file_name" = Some (PStr (stem +:+ ".wav")) ->
  r2 !! "slice_file_name" = Some (PStr (stem +:+ ".jams")) ->
  out_file out_dir r1 = out_file out_dir r2.
Proof.
  intros H1 H2.
  rewrite (out_file_str out_dir r1 _ H1), (out_file_str out_dir r2 _ H2).
  change (str_replace ".wav" ".jams") with (replace_from ".wav" ".jams").
  rewrite !replace_from_wav_app; [done| |];
    by intros a [= <-].
Qed.

Lemma out_file_wav_and_jams_names_collide_dog_bark :
  (dog_bark !! "slice_file_name" = Some (PStr ("100032-3-0-0" +:+ ".wav")) ∧
   jams_named !! "slice_file_name" = Some (PStr ("100032-3-0-0" +:+ ".jams"))) ∧
  out_file "out" dog_bark = out_file "out" jams_named.
Proof.
  split; [split; vm_compute; reflexivity|].
  apply (out_file_wav_and_jams_names_collide "out" dog_bark jams_named "100032-3-0-0");
    vm_compute; reflexivity.
Defined.

(** *** Durations *)

Section Durations.

Local Open Scope Z_scope.

(** A NaN operand makes the difference NaN. *)
Lemma float_sub_nan_r (x : float) : (x - nan)%float = nan.
Proof.
  apply Prim2SF_inj. rewrite sub_spec.
  change (Prim2SF nan) with S754_nan.
  by destruct (Prim2SF x) as [[]|[]| |].
Qed.

Lemma float_sub_nan_l (y : float) : (nan - y)%float = nan.
Proof.
  apply Prim2SF_inj. rewrite sub_spec.
  by change (Prim2SF nan) with S754_nan.
Qed.

Lemma SFsub_gt_zero a b :
  valid_binary a = true -> valid_binary b = true ->
  SFltb b a = true ->
  SFltb (S754_zero false) (SF64sub a b) = true.
Proof.
  intros Ha Hb. unfold SF64sub.
  destruct a as [sa|sa| |sa ma ea], b as [sb|sb| |sb mb eb];
    try discriminate; try (by destruct sa; try destruct sb).
  intros Hlt. cbn [SFsub].
  pose proof (aligned_difference_neg _ _ _ _ _ _ Hb Ha Hlt) as Hneg.
  rewrite (Z.min_comm eb ea) in Hneg.
  simpl in Ha, Hb.
  apply andb_prop in Ha as [(Hmin1 & _)%canonical_mantissa_bounds _].
  apply andb_prop in Hb as [(Hmin2 & _)%canonical_mantissa_bounds _].
  set (x := cond_Zopp sa _) in *. set (y := cond_Zopp sb _) in *.
  destruct (x - y) as [|p|p] eqn:Hd; try lia.
  unfold binary_normalize.
  destruct (binary_round_pos false p (Z.min ea eb)) as [(m' & e' & ->)|[-> _]];
    [lia|reflexivity|reflexivity].
Qed.

(** Subtraction of doubles keeps order the other way too: [y < x] gives
    [0 < x - y]. *)
Lemma float_sub_gt_zero (x y : float) :
  (y <? x)%float = true -> (0 <? x - y)%float = true.
Proof.
  rewrite !ltb_spec, sub_spec. intros Hlt.
  change (Prim2SF 0) with (S754_zero false).
  apply SFsub_gt_zero; auto using Prim2SF_valid.
Qed.

Lemma SFltb_zero_compare_pos f :
  SFltb (S754_zero false) f = true -> Z_compare_SF 0 f = Some Lt.
Proof.
  destruct f as [s|s| |s m e]; try destruct s; try discriminate; intros _;
    try reflexivity.
  cbn [Z_compare_SF cond_Zopp]. f_equal.
  destruct (0 <=? e)%Z eqn:He; [|reflexivity].
  apply Z.leb_le in He. apply Z.compare_lt_iff.
  assert (0 < 2 ^ e)%Z by (apply Z.pow_pos_nonneg; lia). lia.
Qed.

(** Between two integers or two floats, [start < end] makes [end - start]
    positive. *)
Lemma py_sub_positive e s d :
  same_kind e s = true -> num_lt s e = true -> py_sub e s = Ok d ->
  num_lt (PInt 0) d = true.
Proof.
  destruct e as [|m|x|], s as [|n|y|]; try discriminate; intros _; cbn.
  - intros Hlt%Z.ltb_lt [= <-]. cbn. apply Z.ltb_lt. lia.
  - intros Hlt%float_sub_gt_zero [= <-]. cbn.
    rewrite ltb_spec in Hlt. change (Prim2SF 0) with (S754_zero false) in Hlt.
    by rewrite (SFltb_zero_compare_pos _ Hlt).
Qed.

(** Doubles in order, the larger first, give a positive difference. *)
Lemma float_gt_sub_positive (x y : float) :
  SFltb (Prim2SF y) (Prim2SF x) = true -> num_lt (PInt 0) (PFloat (x - y)) = true.
Proof.
  rewrite <- ltb_spec. intros Hlt%float_sub_gt_zero. cbn.
  rewrite ltb_spec in Hlt. change (Prim2SF 0) with (S754_zero false) in Hlt.
  by rewrite (SFltb_zero_compare_pos _ Hlt).
Qed.

(** On numeric cells with [start < end], [end - start] is positive or [0.0],
    and positive when no integer is rounded. *)
Lemma py_sub_forwards e s d :
  is_numeric e = true -> is_numeric s = true ->
  num_lt s e = true -> py_sub e s = Ok d ->
  (no_rounding e s = true -> num_lt (PInt 0) d = true) ∧
  (num_lt (PInt 0) d = true ∨ d = PFloat 0).
Proof.
  intros He Hs Hlt Hd.
  destruct e as [|m|x|], s as [|n|y|]; try discriminate.
  - assert (num_lt (PInt 0) d = true) by (by apply (py_sub_positive (PInt m) (PInt n))).
    auto.
  - cbn -[Z.pow] in He. unfold py_sub in Hd. cbn [as_num] in Hd.
    destruct (float_of_int m) as [x|] eqn:Hx; [|done]. injection Hd as <-.
    destruct (float_of_int_order m x (Prim2SF y)) as (_ & Habove & Hexact);
      [lia|done|apply Prim2SF_valid|].
    unfold num_lt in Hlt. cbn [as_num] in Hlt. destruct (Z_compare_SF m (Prim2SF y)) as [[]|] eqn:Hc; try done.
    split.
    + cbn -[Z.pow num_lt]. intros Hm%Z.leb_le. apply float_gt_sub_positive.
      unfold SFltb. by rewrite (SFcompare_antisym (Prim2SF x) (Prim2SF y)), (Hexact Hm).
    + destruct (Habove eq_refl) as [Hb|(sg & mt & ex & Hx' & Hy')].
      * left. by apply float_gt_sub_positive.
      * right. f_equal. by apply (float_sub_diag x y sg mt ex).
  - cbn -[Z.pow] in Hs. unfold py_sub in Hd. cbn [as_num] in Hd.
    destruct (float_of_int n) as [y|] eqn:Hy; [|done]. injection Hd as <-.
    destruct (float_of_int_order n y (Prim2SF x)) as (Hbelow & _ & Hexact);
      [lia|done|apply Prim2SF_valid|].
    unfold num_lt in Hlt. cbn [as_num] in Hlt. destruct (Z_compare_SF n (Prim2SF x)) as [[]|] eqn:Hc; try done.
    split.
    + cbn -[Z.pow num_lt]. intros Hn%Z.leb_le. apply float_gt_sub_positive.
      unfold SFltb. by rewrite (Hexact Hn).
    + destruct (Hbelow eq_refl) as [Hb|(sg & mt & ex & Hy' & Hx')].
      * left. by apply float_gt_sub_positive.
      * right. f_equal. by apply (float_sub_diag x y sg mt ex).
  - assert (num_lt (PInt 0) d = true) by (by apply (py_sub_positive (PFloat x) (PFloat y))).
    auto.
Qed.

(** With a NaN among [start] and [end], and a number as the other, the
    difference is NaN. *)
Lemma py_sub_nan e s :
  is_numeric e = true -> is_numeric s = true ->
  e = PFloat nan ∨ s = PFloat nan ->
  py_sub e s = Ok (PFloat nan).
Proof.
  intros He Hs [->| ->].
  - destruct s as [|n|y|]; try discriminate.
    + cbn -[Z.pow] in Hs. unfold py_sub. cbn [as_num].
      destruct (float_of_int_ok n) as [y ->]; [lia|]. cbn.
      by rewrite float_sub_nan_l.
    + cbn. by rewrite float_sub_nan_l.
  - destruct e as [|n|x|]; try discriminate.
    + cbn -[Z.pow] in He. unfold py_sub. cbn [as_num].
      destruct (float_of_int_ok n) as [x ->]; [lia|]. cbn.
      by rewrite float_sub_nan_r.
    + cbn. by rewrite float_sub_nan_r.
Qed.

End Durations.

(** X5: for an input record with [start < end] the mapper gives a document
    whose three durations are the value of [end - start].  That value is
    never negative: it is positive or [0.0].  It is positive whenever no
    integer is rounded by the subtraction, that is when [start] and [end]
    are both integers, both floats, or an integer of at most [2^53] in
    absolute value next to a float: the span of such a clip never rounds
    down to zero. *)
Theorem forward_span_is_positive row e s :
  input_record row = true ->
  row !! "end" = Some e -> row !! "start" = Some s ->
  num_lt s e = true ->
  ∃ jam ann obs d,
    create_snippet_jam row = Ok jam ∧
    JAMS.annotations jam = [ann] ∧ Annotation.data ann = [obs] ∧
    py_sub e s = Ok d ∧
    FileMetadata.duration (JAMS.file_metadata jam) = Some d ∧
    Observation.duration obs = d ∧
    Annotation.duration ann = Some d ∧
    (no_rounding e s = true -> num_lt (PInt 0) d = true) ∧
    (num_lt (PInt 0) d = true ∨ d = PFloat 0).
Proof.
  intros Hrow.
  destruct (input_record_fields row Hrow)
    as (name & cls & s' & e' & Hn & Hc & Hs & He & Hns & Hne).
  rewrite Hs, He. intros [= <-] [= <-] Hlt.
  destruct (py_sub_numeric e' s' Hne Hns) as [d Hd].
  rewrite (create_snippet_jam_ok row _ _ _ _ _ Hn Hc Hs He Hd).
  destruct (py_sub_forwards e' s' d Hne Hns Hlt Hd) as [Hpos Hnonneg].
  eexists _, _, _, d. split_and!; done.
Qed.

Lemma forward_span_is_positive_float_start :
  (input_record float_start = true ∧
   float_start !! "end" = Some (PInt 3) ∧ float_start !! "start" = Some (PFloat 0.5) ∧
   num_lt (PFloat 0.5) (PInt 3) = true) ∧
  ∃ jam ann obs d,
    create_snippet_jam float_start = Ok jam ∧
    JAMS.annotations jam = [ann] ∧ Annotation.data ann = [obs] ∧
    py_sub (PInt 3) (PFloat 0.5) = Ok d ∧
    FileMetadata.duration (JAMS.file_metadata jam) = Some d ∧
    Observation.duration obs = d ∧
    Annotation.duration ann = Some d ∧
    (no_rounding (PInt 3) (PFloat 0.5) = true -> num_lt (PInt 0) d = true) ∧
    (num_lt (PInt 0) d = true ∨ d = PFloat 0).
Proof.
  split; [split_and!; vm_compute; reflexivity|].
  apply (forward_span_is_positive float_start (PInt 3) (PFloat 0.5));
    vm_compute; reflexivity.
Defined.

(** X6: an empty [start] or [end] cell (NaN) next to a number is no error:
    the document is built and its three durations are NaN. *)
Theorem empty_span_cell_gives_nan_durations row e s :
  input_record row = true ->
  row !! "end" = Some e -> row !! "start" = Some s ->
  e = PFloat nan ∨ s = PFloat nan ->
  ∃ jam ann obs,
    create_snippet_jam row = Ok jam ∧
    JAMS.annotations jam = [ann] ∧ Annotation.data ann = [obs] ∧
    FileMetadata.duration (JAMS.file_metadata jam) = Some (PFloat nan) ∧
    Observation.duration obs = PFloat nan ∧
    Annotation.duration ann = Some (PFloat nan).
Proof.
  intros (name & cls & s' & e' & Hn & Hc & Hs & He & Hns & Hne)%input_record_fields.
  rewrite Hs, He. intros [= <-] [= <-] Hnan.
  rewrite (create_snippet_jam_ok row _ _ _ _ _ Hn Hc Hs He (py_sub_nan _ _ Hne Hns Hnan)).
  eexists _, _, _. split_and!; done.
Qed.

Lemma empty_span_cell_gives_nan_durations_empty_start :
  (input_record empty_start = true ∧
   empty_start !! "end" = Some (PFloat 1.5) ∧
   empty_start !! "start" = Some (PFloat nan) ∧
   (PFloat 1.5 = PFloat nan ∨ PFloat nan = PFloat nan)) ∧
  ∃ jam ann obs,
    create_snippet_jam empty_start = Ok jam ∧
    JAMS.annotations jam = [ann] ∧ Annotation.data ann = [obs] ∧
    FileMetadata.duration (JAMS.file_metadata jam) = Some (PFloat nan) ∧
    Observation.duration obs = PFloat nan ∧
    Annotation.duration ann = Some (PFloat nan).
Proof.
  split; [split_and!; try (vm_compute; reflexivity); by right|].
  apply (empty_span_cell_gives_nan_durations empty_start (PFloat 1.5) (PFloat nan));
    try (vm_compute; reflexivity). by right.
Defined.

(** X9: the sandbox of the annotation is the row itself: every column with
    its value, and no entry that is not a column of the row. *)
Theorem sandbox_is_the_row row jam :
  create_snippet_jam row = Ok jam ->
  ∃ ann,
    JAMS.annotations jam = [ann] ∧ Annotation.sandbox ann = row ∧
    ∀ column, is_Some (Annotation.sandbox ann !! column) <-> is_Some (row !! column).
Proof.
  intros (name & cls & s & e & d & _ & _ & _ & _ & _ & ->)%create_snippet_jam_inv.
  eexists. split; [done|].
  assert (Sandbox_update row ∅ = row) as Hsb by apply (right_id_L ∅ (∪)).
  cbn. by rewrite Hsb.
Qed.

Lemma sandbox_is_the_row_dog_bark :
  create_snippet_jam dog_bark
  = Ok (snippet dog_bark (PStr "100032-3-0-0.wav") (PStr "dog_bark") (PFloat 4)) ∧
  ∃ ann,
    JAMS.annotations
      (snippet dog_bark (PStr "100032-3-0-0.wav") (PStr "dog_bark") (PFloat 4))
    = [ann] ∧
    Annotation.sandbox ann = dog_bark ∧
    ∀ column, is_Some (Annotation.sandbox ann !! column)
              <-> is_Some (dog_bark !! column).
Proof.
  split; [vm_compute; reflexivity|].
  apply (sandbox_is_the_row dog_bark). vm_compute; reflexivity.
Defined.

(** X10: the provenance of the annotation does not depend on the row: any
    two documents carry the same annotation metadata and namespace, with
    corpus ["UrbanSound8K"], version ["1.0"], tool ["Sonic Visualiser"], an
    empty validation and the curator's name and address. *)
Theorem provenance_is_the_same_for_every_row r1 r2 jam1 jam2 :
  create_snippet_jam r1 = Ok jam1 -> create_snippet_jam r2 = Ok jam2 ->
  ∃ ann1 ann2,
    JAMS.annotations jam1 = [ann1] ∧ JAMS.annotations jam2 = [ann2] ∧
    Annotation.annotation_metadata ann1 = Annotation.annotation_metadata ann2 ∧
    Annotation.namespace ann1 = Annotation.namespace ann2 ∧
    AnnotationMetadata.corpus (Annotation.annotation_metadata ann1) = "UrbanSound8K" ∧
    AnnotationMetadata.version (Annotation.annotation_metadata ann1) = "1.0" ∧
    AnnotationMetadata.annotation_tools (Annotation.annotation_metadata ann1)
    = "Sonic Visualiser" ∧
    AnnotationMetadata.validation (Annotation.annotation_metadata ann1) = "" ∧
    AnnotationMetadata.curator (Annotation.annotation_metadata ann1)
    = Curator.mk "Justin Salamon" "justin.salamon@nyu.edu" ∧
    AnnotationMetadata.annotator (Annotation.annotation_metadata ann1) = annotators.
Proof.
  intros (n1 & c1 & s1 & e1 & d1 & _ & _ & _ & _ & _ & ->)%create_snippet_jam_inv
         (n2 & c2 & s2 & e2 & d2 & _ & _ & _ & _ & _ & ->)%create_snippet_jam_inv.
  eexists _, _. split_and!; done.
Qed.

Lemma provenance_is_the_same_for_every_row_two_clips :
  (create_snippet_jam dog_bark
   = Ok (snippet dog_bark (PStr "100032-3-0-0.wav") (PStr "dog_bark") (PFloat 4)) ∧
   create_snippet_jam backwards
   = Ok (snippet backwards (PStr "17592-5-1-0.wav") (PStr "engine_idling")
           (PFloat (-2.5)))) ∧
  ∃ ann1 ann2,
    JAMS.annotations
      (snippet dog_bark (PStr "100032-3-0-0.wav") (PStr "dog_bark") (PFloat 4))
    = [ann1] ∧
    JAMS.annotations
      (snippet backwards (PStr "17592-5-1-0.wav") (PStr "engine_idling")
         (PFloat (-2.5)))
    = [ann2] ∧
    Annotation.annotation_metadata ann1 = Annotation.annotation_metadata ann2.
Proof.
  split; [split; vm_compute; reflexivity|].
  destruct (provenance_is_the_same_for_every_row dog_bark backwards
              (snippet dog_bark (PStr "100032-3-0-0.wav") (PStr "dog_bark") (PFloat 4))
              (snippet backwards (PStr "17592-5-1-0.wav") (PStr "engine_idling")
                 (PFloat (-2.5))))
    as (ann1 & ann2 & H1 & H2 & Hmeta & _); [vm_compute; reflexivity..|].
  by exists ann1, ann2.
Defined.

(** X11: [fill_annotation_metadata] works on any annotation: it keeps the
    namespace, the events and the duration, sets the provenance fields to
    values that depend neither on the annotation nor on the row, and updates
    the sandbox so that a column of the row wins over an older entry of the
    same name while the other entries stay.  Filling twice with the same row
    is filling once. *)
Theorem fill_annotation_metadata_frame ann row :
  Annotation.namespace (fill_annotation_metadata ann row) = Annotation.namespace ann ∧
  Annotation.data (fill_annotation_metadata ann row) = Annotation.data ann ∧
  Annotation.duration (fill_annotation_metadata ann row) = Annotation.duration ann ∧
  (∀ ann' row',
     Annotation.annotation_metadata (fill_annotation_metadata ann row)
     = Annotation.annotation_metadata (fill_annotation_metadata ann' row')) ∧
  (∀ column,
     Annotation.sandbox (fill_annotation_metadata ann row) !! column
     = match row !! column with
       | Some v => Some v
       | None => Annotation.sandbox ann !! column
       end) ∧
  fill_annotation_metadata (fill_annotation_metadata ann row) row
  = fill_annotation_metadata ann row.
Proof.
  split_and!; try done.
  - intros column. cbn. unfold Sandbox_update.
    rewrite lookup_union. by destruct (row !! column), (Annotation.sandbox ann !! column).
  - unfold fill_annotation_metadata. cbn. unfold Sandbox_update.
    by rewrite (assoc_L (∪)), (idemp_L (∪)).
Qed.

(** X12: [fill_file_metadata] works on any document: with the three columns
    it reads in the row and a difference that can be computed, it returns
    the document with the same annotations and the four file-metadata fields
    set, whatever they held before; filling the result again with the same
    row changes nothing. *)
Theorem fill_file_metadata_frame jam row name s e d :
  row !! "slice_file_name" = Some name ->
  row !! "start" = Some s -> row !! "end" = Some e ->
  py_sub e s = Ok d ->
  ∃ jam',
    fill_file_metadata jam row = Ok jam' ∧
    JAMS.annotations jam' = JAMS.annotations jam ∧
    JAMS.file_metadata jam' = FileMetadata.mk name "UrbanSound8K" "1.0" (Some d) ∧
    fill_file_metadata jam' row = Ok jam'.
Proof.
  intros Hn Hs He Hd.
  unfold fill_file_metadata, getitem. rewrite Hn, Hs, He. simpl. rewrite Hd. simpl.
  eexists. split_and!; done.
Qed.

Lemma fill_file_metadata_frame_dog_bark :
  (dog_bark !! "slice_file_name" = Some (PStr "100032-3-0-0.wav") ∧
   dog_bark !! "start" = Some (PFloat 0) ∧ dog_bark !! "end" = Some (PFloat 4) ∧
   py_sub (PFloat 4) (PFloat 0) = Ok (PFloat 4)) ∧
  ∃ jam',
    fill_file_metadata
      (snippet backwards (PStr "17592-5-1-0.wav") (PStr "engine_idling")
         (PFloat (-2.5))) dog_bark = Ok jam' ∧
    JAMS.annotations jam'
    = JAMS.annotations
        (snippet backwards (PStr "17592-5-1-0.wav") (PStr "engine_idling")
           (PFloat (-2.5))) ∧
    JAMS.file_metadata jam'
    = FileMetadata.mk (PStr "100032-3-0-0.wav") "UrbanSound8K" "1.0"
        (Some (PFloat 4)) ∧
    fill_file_metadata jam' dog_bark = Ok jam'.
Proof.
  split; [split_and!; vm_compute; reflexivity|].
  apply (fill_file_metadata_frame _ dog_bark (PStr "100032-3-0-0.wav")
           (PFloat 0) (PFloat 4) (PFloat 4)); vm_compute; reflexivity.
Defined.

(** *** Whole runs *)

Section Runs.

Variable save_error : string -> JAMS.t -> option exn.
Variable out_dir : string.

Local Abbreviation run_row := (process_row save_error out_dir).
Local Abbreviation run_rows := (for_rows save_error out_dir).

(** The three steps of a row that goes through. *)
Definition row_goes_through (row : Row) : Prop :=
  ∃ jam path,
    create_snippet_jam row = Ok jam ∧ out_file out_dir row = Ok path ∧
    save_error path jam = None.

Lemma process_row_goes_through row fs :
  row_goes_through row -> ∃ fs', run_row row fs = (fs', Ok tt).
Proof.
  intros (jam & path & Hjam & Hpath & Hsave).
  unfold process_row, JAMS_save. rewrite Hjam, Hpath, Hsave. eauto.
Qed.

Lemma for_rows_go_through rows fs :
  (∀ row, row ∈ rows -> row_goes_through row) ->
  ∃ fs', run_rows rows fs = (fs', Ok tt).
Proof.
  revert fs; induction rows as [|row rows IH]; intros fs Hall; [by eexists|].
  destruct (process_row_goes_through row fs) as [fs1 Hrow]; [apply Hall; by left|].
  cbn. rewrite Hrow. apply IH. intros r Hr. apply Hall. by right.
Qed.

Lemma for_rows_Ok_inv rows fs fs' u :
  run_rows rows fs = (fs', Ok u) -> ∀ row, row ∈ rows -> row_goes_through row.
Proof.
  revert fs; induction rows as [|r rows IH]; intros fs; cbn; [set_solver|].
  destruct (run_row r fs) as [fs1 [v|e]] eqn:Hrow; [|done].
  intros Hrun row [->|Hin]%elem_of_cons; [|by eapply IH].
  apply process_row_Ok in Hrow as (jam & path & ? & ? & ? & _).
  by exists jam, path.
Qed.

(** The loop adds at most one file for each row. *)
Lemma for_rows_size rows fs fs' res :
  run_rows rows fs = (fs', res) -> (size fs' <= size fs + length rows)%nat.
Proof.
  revert fs; induction rows as [|r rows IH]; intros fs; cbn.
  { intros [= <- _]. lia. }
  destruct (run_row r fs) as [fs1 [v|e]] eqn:Hrow.
  - apply process_row_Ok in Hrow as (jam & path & _ & _ & _ & ->).
    intros Hrun%IH. rewrite map_size_insert in Hrun.
    destruct (fs !! path); simpl in Hrun; lia.
  - intros [= <- _]. rewrite (process_row_Raise _ _ _ _ _ _ Hrow). lia.
Qed.

(** Why a row fails: the mapper raised; or the document was built and the
    name is not text; or the document and the path were there and the save
    failed. *)
Lemma process_row_Raise_cases row fs fs' err :
  run_row row fs = (fs', Raise err) ->
  create_snippet_jam row = Raise err ∨
  (∃ jam,
     create_snippet_jam row = Ok jam ∧
     ((∃ name, row !! "slice_file_name" = Some name ∧ is_str name = false ∧
               err = AttributeError "replace") ∨
      (∃ path, out_file out_dir row = Ok path ∧ save_error path jam = Some err))).
Proof.
  unfold process_row, JAMS_save.
  destruct (create_snippet_jam row) as [jam|e0] eqn:Hjam; [|intros [= _ <-]; by left].
  intros Hrun. right. exists jam. split; [done|].
  apply create_snippet_jam_inv in Hjam as (name & _ & _ & _ & _ & Hn & _).
  unfold out_file, getitem in *. rewrite Hn in *. simpl in Hrun |- *.
  destruct name as [name| | |]; simpl in Hrun |- *;
    try (injection Hrun as _ <-; left; eexists; by split_and!).
  destruct (save_error _ jam) eqn:Hsave; [|done].
  injection Hrun as _ <-. right. eauto.
Qed.

End Runs.

(** X13: a row whose [slice_file_name] is not text (an empty cell, a number)
    gets its document built, and then fails on [.replace] with an
    [AttributeError]; no file is written for it. *)
Theorem name_not_text_raises_AttributeError
    save_error out_dir row name cls s e d fs :
  row !! "slice_file_name" = Some name -> row !! "class" = Some cls ->
  row !! "start" = Some s -> row !! "end" = Some e ->
  py_sub e s = Ok d ->
  is_str name = false ->
  create_snippet_jam row = Ok (snippet row name cls d) ∧
  process_row save_error out_dir row fs = (fs, Raise (AttributeError "replace")).
Proof.
  intros Hn Hc Hs He Hd Hname.
  pose proof (create_snippet_jam_ok row _ _ _ _ _ Hn Hc Hs He Hd) as Hjam.
  split; [done|].
  unfold process_row, out_file, getitem. rewrite Hjam, Hn. simpl.
  by destruct name.
Qed.

Lemma name_not_text_raises_AttributeError_empty_name :
  (empty_name !! "slice_file_name" = Some (PFloat nan) ∧
   empty_name !! "class" = Some (PStr "drilling") ∧
   empty_name !! "start" = Some (PFloat 0) ∧ empty_name !! "end" = Some (PFloat 4) ∧
   py_sub (PFloat 4) (PFloat 0) = Ok (PFloat 4) ∧
   is_str (PFloat nan) = false) ∧
  create_snippet_jam empty_name
  = Ok (snippet empty_name (PFloat nan) (PStr "drilling") (PFloat 4)) ∧
  process_row always_saves "out" empty_name after_dog_bark
  = (after_dog_bark, Raise (AttributeError "replace")).
Proof.
  split; [split_and!; vm_compute; reflexivity|].
  apply (name_not_text_raises_AttributeError always_saves "out" empty_name
           (PFloat nan) (PStr "drilling") (PFloat 0) (PFloat 4) (PFloat 4)
           after_dog_bark); vm_compute; reflexivity.
Defined.

(** X14: when the table is read, every row is an input record and the writer
    accepts the document of each row of the table under that row's file
    name, the run completes.  Every row then has its file, which holds the
    row's document unless a later row has the same file name (the later row
    overwrites it), and a path that no row maps to holds what it held before
    the run. *)
Theorem process_metadata_completes
    read_csv save_error metadata_file out_dir rows fs :
  read_csv metadata_file = Ok rows ->
  (∀ row, row ∈ rows -> input_record row = true) ->
  (∀ row jam path,
     row ∈ rows -> create_snippet_jam row = Ok jam ->
     out_file out_dir row = Ok path -> save_error path jam = None) ->
  ∃ fs',
    process_metadata read_csv save_error metadata_file out_dir fs = (fs', Ok tt) ∧
    (∀ i row, rows !! i = Some row ->
       ∃ jam path,
         create_snippet_jam row = Ok jam ∧ out_file out_dir row = Ok path ∧
         is_Some (fs' !! path) ∧
         ((∀ j row', (i < j)%nat -> rows !! j = Some row' ->
                     out_file out_dir row' ≠ Ok path) ->
          fs' !! path = Some jam)) ∧
    (∀ path, (∀ row, row ∈ rows -> out_file out_dir row ≠ Ok path) ->
             fs' !! path = fs !! path).
Proof.
  intros Hread Hrows Hsave.
  destruct (for_rows_go_through save_error out_dir rows fs) as [fs' Hrun].
  { intros row Hin.
    destruct (create_snippet_jam_input_record row (Hrows row Hin))
      as (name & cls & s & e & d & Hn & _ & _ & _ & _ & Hjam).
    pose proof (out_file_str out_dir row name Hn) as Hpath.
    eexists _, _. split_and!; [done|done|by apply (Hsave row)]. }
  exists fs'. unfold process_metadata. rewrite Hread. split_and!; [done| |].
  - intros i row Hi. by apply (for_rows_written _ _ _ _ _ _ _ _ Hrun).
  - intros path Hpath. by apply (for_rows_other _ _ _ _ _ _ _ Hrun).
Qed.

Lemma process_metadata_completes_two_clips :
  (read_two_clips "UrbanSound8K.csv" = Ok two_clips ∧
   Forall (λ row, input_record row = true) two_clips ∧
   (∀ row jam path,
      row ∈ two_clips -> create_snippet_jam row = Ok jam ->
      out_file "out" row = Ok path -> saves_jams_names path jam = None)) ∧
  ∃ fs',
    process_metadata read_two_clips saves_jams_names "UrbanSound8K.csv" "out" ∅
    = (fs', Ok tt) ∧
    (∀ i row, two_clips !! i = Some row ->
       ∃ jam path,
         create_snippet_jam row = Ok jam ∧ out_file "out" row = Ok path ∧
         is_Some (fs' !! path) ∧
         ((∀ j row', (i < j)%nat -> two_clips !! j = Some row' ->
                     out_file "out" row' ≠ Ok path) ->
          fs' !! path = Some jam)) ∧
    (∀ path, (∀ row, row ∈ two_clips -> out_file "out" row ≠ Ok path) ->
             fs' !! path = (∅ : Files) !! path).
Proof.
  assert (Hall : Forall (λ row, input_record row = true) two_clips).
  { repeat constructor; vm_compute; reflexivity. }
  assert (Hsave : ∀ row jam path,
             row ∈ two_clips -> create_snippet_jam row = Ok jam ->
             out_file "out" row = Ok path -> saves_jams_names path jam = None).
  { intros row jam path Hin _ Hpath. unfold two_clips in Hin.
    apply elem_of_cons in Hin as [->|Hin];
      [|apply elem_of_cons in Hin as [->|Hin]; [|by apply elem_of_nil in Hin]].
    - assert (path = "out/100032-3-0-0.jams") as ->
        by (vm_compute in Hpath; congruence).
      vm_compute; reflexivity.
    - assert (path = "out/100652-3-0-1.jams") as ->
        by (vm_compute in Hpath; congruence).
      vm_compute; reflexivity. }
  split; [split_and!; [reflexivity|exact Hall|exact Hsave]|].
  apply (process_metadata_completes read_two_clips saves_jams_names
           "UrbanSound8K.csv" "out" two_clips ∅); [reflexivity| |exact Hsave].
  intros row Hrow. by apply (proj1 (Forall_forall _ _) Hall).
Defined.

(** X15: a run that completes has skipped no row: the table was read, and
    every row of it was mapped to a document and saved under its file name,
    which is among the files at the end. *)
Theorem process_metadata_Ok_skips_no_row
    read_csv save_error metadata_file out_dir fs fs' u :
  process_metadata read_csv save_error metadata_file out_dir fs = (fs', Ok u) ->
  ∃ rows,
    read_csv metadata_file = Ok rows ∧
    ∀ row, row ∈ rows ->
      ∃ jam path,
        create_snippet_jam row = Ok jam ∧ out_file out_dir row = Ok path ∧
        save_error path jam = None ∧ is_Some (fs' !! path).
Proof.
  unfold process_metadata.
  destruct (read_csv metadata_file) as [rows|] eqn:Hread; [|done].
  intros Hrun. exists rows. split; [done|].
  intros row Hrow.
  destruct (for_rows_Ok_inv _ _ _ _ _ _ Hrun row Hrow) as (jam & path & ? & ? & ?).
  exists jam, path. split_and!; try done.
  apply list_elem_of_lookup in Hrow as [i Hi].
  destruct (for_rows_written _ _ _ _ _ _ i row Hrun Hi) as (jam' & path' & _ & ? & ? & _).
  by assert (path' = path) as <- by congruence.
Qed.

Lemma process_metadata_Ok_skips_no_row_colliding_rows :
  process_metadata read_colliding_rows always_saves "UrbanSound8K.csv" "out" ∅
  = ((for_rows always_saves "out" colliding_rows ∅).1, Ok tt) ∧
  ∃ rows,
    read_colliding_rows "UrbanSound8K.csv" = Ok rows ∧
    ∀ row, row ∈ rows ->
      ∃ jam path,
        create_snippet_jam row = Ok jam ∧ out_file "out" row = Ok path ∧
        always_saves path jam = None ∧
        is_Some ((for_rows always_saves "out" colliding_rows ∅).1 !! path).
Proof.
  assert (Hrun : process_metadata read_colliding_rows always_saves
                   "UrbanSound8K.csv" "out" ∅
                 = ((for_rows always_saves "out" colliding_rows ∅).1, Ok tt))
    by (vm_compute; reflexivity).
  split; [exact Hrun|].
  exact (process_metadata_Ok_skips_no_row _ _ _ _ _ _ _ Hrun).
Defined.

(** X16: however a run ends, it removes no file: a path that held a file
    before the run holds one after it.  When the table was read, the run
    adds at most one file for each row; when it was not, the files are
    untouched. *)
Theorem process_metadata_only_adds_files
    read_csv save_error metadata_file out_dir fs :
  let fs' := (process_metadata read_csv save_error metadata_file out_dir fs).1 in
  (∀ path, is_Some (fs !! path) -> is_Some (fs' !! path)) ∧
  match read_csv metadata_file with
  | Ok rows => (size fs' <= size fs + length rows)%nat
  | Raise _ => fs' = fs
  end.
Proof.
  unfold process_metadata.
  destruct (read_csv metadata_file) as [rows|]; [|done].
  destruct (for_rows save_error out_dir rows fs) as [fs' res] eqn:Hrun. cbn.
  split.
  - intros path. by apply (for_rows_keeps _ _ _ _ _ _ _ Hrun).
  - by apply (for_rows_size _ _ _ _ _ _ Hrun).
Qed.

(** X17: a run that ends in an error either could not read the table, and
    then touched no file, or stopped at a first failing row [k]: the rows
    before it went through and left the final files, and row [k] raised the
    error because the mapper raised it, or because its name is not text, or
    because the save failed. *)
Theorem process_metadata_Raise_stopped_at_a_row
    read_csv save_error metadata_file out_dir fs fs' err :
  process_metadata read_csv save_error metadata_file out_dir fs = (fs', Raise err) ->
  (read_csv metadata_file = Raise err ∧ fs' = fs) ∨
  ∃ rows k row,
    read_csv metadata_file = Ok rows ∧ rows !! k = Some row ∧
    for_rows save_error out_dir (take k rows) fs = (fs', Ok tt) ∧
    process_row save_error out_dir row fs' = (fs', Raise err) ∧
    (create_snippet_jam row = Raise err ∨
     (∃ jam,
        create_snippet_jam row = Ok jam ∧
        ((∃ name, row !! "slice_file_name" = Some name ∧ is_str name = false ∧
                  err = AttributeError "replace") ∨
         (∃ path, out_file out_dir row = Ok path ∧
                  save_error path jam = Some err)))).
Proof.
  unfold process_metadata.
  destruct (read_csv metadata_file) as [rows|e0] eqn:Hread;
    [|intros [= <- <-]; by left].
  intros (k & row & Hk & Hpre & Hrow)%for_rows_Raise. right.
  exists rows, k, row. split_and!; try done.
  by apply (process_row_Raise_cases _ _ _ _ _ _ Hrow).
Qed.

Lemma process_metadata_Raise_stopped_at_a_row_three_rows :
  process_metadata read_three_rows always_saves "UrbanSound8K.csv" "out" ∅
  = (after_dog_bark, Raise TypeError) ∧
  ((read_three_rows "UrbanSound8K.csv" = Raise TypeError ∧ after_dog_bark = ∅) ∨
   ∃ rows k row,
     read_three_rows "UrbanSound8K.csv" = Ok rows ∧ rows !! k = Some row ∧
     for_rows always_saves "out" (take k rows) ∅ = (after_dog_bark, Ok tt) ∧
     process_row always_saves "out" row after_dog_bark
     = (after_dog_bark, Raise TypeError) ∧
     (create_snippet_jam row = Raise TypeError ∨
      (∃ jam,
         create_snippet_jam row = Ok jam ∧
         ((∃ name, row !! "slice_file_name" = Some name ∧ is_str name = false ∧
                   TypeError = AttributeError "replace") ∨
          (∃ path, out_file "out" row = Ok path ∧
                   always_saves path jam = Some TypeError))))).
Proof.
  split; [vm_compute; reflexivity|].
  apply (process_metadata_Raise_stopped_at_a_row read_three_rows always_saves
           "UrbanSound8K.csv" "out" ∅ after_dog_bark TypeError).
  vm_compute; reflexivity.
Defined.

(** X18: text in [start] or [end] stops a row with a [TypeError] before
    anything else of the row is looked at: whatever its other columns, no
    document is built and no file is written. *)
Theorem text_span_raises_TypeError save_error out_dir row s e fs :
  row !! "start" = Some s -> row !! "end" = Some e ->
  is_str s || is_str e = true ->
  create_snippet_jam row = Raise TypeError ∧
  process_row save_error out_dir row fs = (fs, Raise TypeError).
Proof.
  intros Hs He Hstr.
  pose proof (create_snippet_jam_text_span row s e Hs He Hstr) as Hjam.
  split; [done|]. unfold process_row. by rewrite Hjam.
Qed.

Lemma text_span_raises_TypeError_malformed :
  (malformed !! "start" = Some (PStr "abc") ∧ malformed !! "end" = Some (PFloat 4) ∧
   is_str (PStr "abc") || is_str (PFloat 4) = true) ∧
  create_snippet_jam malformed = Raise TypeError ∧
  process_row always_saves "out" malformed after_dog_bark
  = (after_dog_bark, Raise TypeError).
Proof.
  split; [split_and!; vm_compute; reflexivity|].
  apply (text_span_raises_TypeError always_saves "out" malformed
           (PStr "abc") (PFloat 4) after_dog_bark); vm_compute; reflexivity.
Defined.
